(** * Non-owning views of glow/Support/ADT.h

    A shallow embedding of [ArrayRef], [MutableArrayRef] and [StringRef]
    (include/glow/Support/ADT.h) together with the properties of their
    operations.

    Conventions of the embedding:
    - [size_t] is a 64-bit unsigned integer, carried as a [Z] whose
      wrap-around is written out ([SizeT.wrap]);
    - a pointer is an address, a [Z]; [nullptr] is address 0 and pointer
      arithmetic is address arithmetic;
    - memory is a total map from addresses to cells; a view never owns the
      cells it designates;
    - [assert] is kept: an operation guarded by an assertion returns in
      [Checked], and a failed assertion carries the message of the source. *)

From Stdlib Require Import ZArith String Strings.Byte List Lia Bool.
Import ListNotations.
Local Open Scope Z_scope.

(** ** Machine integers and pointers *)

Module SizeT.
Definition bits : Z := 64.
Definition modulus : Z := 2 ^ bits.
Definition wrap (z : Z) : Z := z mod modulus.
Definition in_range (z : Z) : Prop := 0 <= z < modulus.
Definition add (a b : Z) : Z := wrap (a + b).
Definition sub (a b : Z) : Z := wrap (a - b).
Definition lnot (a : Z) : Z := wrap (Z.lnot a).
End SizeT.

Definition ptr : Type := Z.
Definition nullptr : ptr := 0.

(** Memory holding cells of type [T], addressed in units of [T]. *)
Definition Memory (T : Type) : Type := ptr -> T.

(** [poke m base l] is [m] with the cells of [l] laid out from [base] on. *)
Fixpoint poke {T : Type} (m : Memory T) (base : ptr) (l : list T) : Memory T :=
  match l with
  | [] => m
  | x :: l' => fun a => if a =? base then x else poke m (base + 1) l' a
  end.

(** The cells [p], [p+1], ..., [p+n-1]. *)
Fixpoint cells {T : Type} (m : Memory T) (p : ptr) (n : nat) : list T :=
  match n with
  | O => []
  | S k => m p :: cells m (p + 1) k
  end.

(** ** Assertions *)

Inductive Checked (A : Type) : Type :=
| Ok (a : A)
| AssertionFailed (msg : string).
Arguments Ok {A} a.
Arguments AssertionFailed {A} msg.

Definition assert {A : Type} (cond : bool) (msg : string) (k : Checked A) : Checked A :=
  if cond then k else AssertionFailed msg.

Definition bind {A B : Type} (c : Checked A) (f : A -> Checked B) : Checked B :=
  match c with
  | Ok a => f a
  | AssertionFailed msg => AssertionFailed msg
  end.

(** [std::equal(first1, first1 + n, first2)] with the element type's
    [operator==] given as [eqb]: false at the first pair that is not equal. *)
Fixpoint std_equal {T : Type} (eqb : T -> T -> bool) (m : Memory T)
    (first1 first2 : ptr) (n : nat) : bool :=
  match n with
  | O => true
  | S k =>
      if negb (eqb (m first1) (m first2)) then false
      else std_equal eqb m (first1 + 1) (first2 + 1) k
  end.

(** ** ArrayRef<T> *)

Module ArrayRef.
Record t : Type := mk { data_ : ptr; length_ : Z }.

(** ArrayRef() = default *)
Definition default : t := mk nullptr 0.

Definition data (v : t) : ptr := data_ v.
Definition size (v : t) : Z := length_ v.
Definition empty (v : t) : bool := length_ v =? 0.

(** The elements a view designates, first to last. *)
Definition elements {T : Type} (m : Memory T) (v : t) : list T :=
  cells m (data v) (Z.to_nat (size v)).

Definition drop_front (v : t) : Checked t :=
  assert (size v >=? 1) "Array is empty"
    (Ok (mk (data v + 1) (SizeT.sub (size v) 1))).

(** The parameter [N] is part of the signature; the body does not read it. *)
Definition drop_back (v : t) (N : Z) : Checked t :=
  assert (size v >=? 1) "Array is empty"
    (Ok (mk (data v) (SizeT.sub (size v) 1))).

Definition index {T : Type} (m : Memory T) (v : t) (Index : Z) : Checked T :=
  assert (Index <? length_ v) "Invalid index!" (Ok (m (data_ v + Index))).

(** ArrayRef(const T *begin, const T *end) : data_(begin), length_(end - begin) *)
Definition of_range (begin_ end_ : ptr) : t := mk begin_ (SizeT.wrap (end_ - begin_)).

Definition begin_ (v : t) : ptr := data_ v.
Definition end_ (v : t) : ptr := data_ v + length_ v.

Definition equals {T : Type} (eqb : T -> T -> bool) (m : Memory T) (v RHS : t) : bool :=
  if negb (length_ v =? length_ RHS) then false
  else std_equal eqb m (begin_ v) (begin_ RHS) (Z.to_nat (end_ v - begin_ v)).

(** std::vector<T>(begin(), end()) *)
Definition vec {T : Type} (m : Memory T) (v : t) : list T :=
  cells m (begin_ v) (Z.to_nat (end_ v - begin_ v)).

(** operator== and operator!= *)
Definition op_eq {T : Type} (eqb : T -> T -> bool) (m : Memory T) (LHS RHS : t) : bool :=
  equals eqb m LHS RHS.
Definition op_ne {T : Type} (eqb : T -> T -> bool) (m : Memory T) (LHS RHS : t) : bool :=
  negb (op_eq eqb m LHS RHS).
End ArrayRef.

(** ** MutableArrayRef<T>

    A [MutableArrayRef] is an [ArrayRef] (public inheritance): it has the same
    representation, and adds the operations below. *)

Module MutableArrayRef.
Definition t : Type := ArrayRef.t.

Definition slice (v : t) (N M : Z) : Checked t :=
  assert (SizeT.add N M <=? ArrayRef.size v) "Invalid specifier"
    (Ok (ArrayRef.mk (ArrayRef.data v + N) M)).

Definition drop_front (v : t) (N : Z) : Checked t :=
  assert (ArrayRef.size v >=? N) "Dropping more elements than exist"
    (slice v N (SizeT.sub (ArrayRef.size v) N)).

Definition drop_back (v : t) (N : Z) : Checked t :=
  assert (ArrayRef.size v >=? N) "Dropping more elements than exist"
    (slice v 0 (SizeT.sub (ArrayRef.size v) N)).


(** [front], [back] and [operator[]] return a [T &]: the address of the
    cell, through which the caller reads and writes. *)
Definition front (v : t) : Checked ptr :=
  assert (negb (ArrayRef.empty v)) "!this->empty()" (Ok (ArrayRef.data v + 0)).

Definition back (v : t) : Checked ptr :=
  assert (negb (ArrayRef.empty v)) "!this->empty()"
    (Ok (ArrayRef.data v + SizeT.sub (ArrayRef.size v) 1)).

Definition index (v : t) (Index : Z) : Checked ptr :=
  assert (Index <? ArrayRef.size v) "Invalid index!" (Ok (ArrayRef.data v + Index)).
End MutableArrayRef.

(** ** iterator_range<IteratorT>

    The adaptor is a template over its iterator type; it is taken here at
    pointer iterators, the instance [StringRef::bytes()] uses. *)

Module iterator_range.
Record t : Type := mk { begin_iterator : ptr; end_iterator : ptr }.

Definition begin_ (r : t) : ptr := begin_iterator r.
Definition end_ (r : t) : ptr := end_iterator r.

End iterator_range.



(** A view of three elements 10, 20, 30 stored from address 1000 on. *)
Definition mem3 : Memory Z := poke (fun _ => 0) 1000 [10; 20; 30].
Definition view3 : ArrayRef.t := ArrayRef.mk 1000 3.

(** ** C and C++ library routines used by StringRef *)

(** A [char] read as [unsigned char]. *)
Definition uchar (b : byte) : Z := Z.of_N (Byte.to_N b).

Definition store {T : Type} (m : Memory T) (a : ptr) (x : T) : Memory T :=
  fun a' => if a' =? a then x else m a'.

(** [::memcmp]: bytes are compared as [unsigned char]; the result is the
    difference of the first pair that differs, and zero when none does. *)
Fixpoint memcmp (m : Memory byte) (Lhs Rhs : ptr) (n : nat) : Z :=
  match n with
  | O => 0
  | S k =>
      if Byte.eqb (m Lhs) (m Rhs) then memcmp m (Lhs + 1) (Rhs + 1) k
      else uchar (m Lhs) - uchar (m Rhs)
  end.

(** [::memchr]: a pointer to the first of [n] bytes from [p] on equal to [C]. *)
Fixpoint memchr (m : Memory byte) (p : ptr) (C : byte) (n : nat) : option ptr :=
  match n with
  | O => None
  | S k => if Byte.eqb (m p) C then Some p else memchr m (p + 1) C k
  end.

(** [::strlen], reading at most [fuel] bytes: [None] when no terminator is
    among them. *)
Fixpoint strlen (fuel : nat) (m : Memory byte) (p : ptr) : option Z :=
  match fuel with
  | O => None
  | S k =>
      if Byte.eqb (m p) x00 then Some 0
      else option_map Z.succ (strlen k m (p + 1))
  end.

(** [std::copy(first, first + n, d_first)]: front to back, one cell at a time,
    each read made in the memory the previous writes left. *)
Fixpoint std_copy_n (m : Memory byte) (first d_first : ptr) (n : nat) : Memory byte :=
  match n with
  | O => m
  | S k => std_copy_n (store m d_first (m first)) (first + 1) (d_first + 1) k
  end.

Definition std_copy (m : Memory byte) (first last d_first : ptr) : Memory byte :=
  std_copy_n m first d_first (Z.to_nat (last - first)).

(** ** Allocators

    [StringRef::copy] is a template over its allocator and uses one member,
    [Allocate<char>(n)], which returns a pointer and may change the
    allocator. *)

Class Allocator (A : Type) : Type := Allocate : A -> Z -> ptr * A.

(** What [copy] runs in: the memory, the allocator, and the sizes requested
    from the allocator so far, oldest first. *)
Record World (A : Type) : Type :=
  mkWorld { heap : Memory byte; allocator : A; requests : list Z }.
Arguments mkWorld {A} heap allocator requests.
Arguments heap {A} w.
Arguments allocator {A} w.
Arguments requests {A} w.

(** A bump allocator: its state is the next free address. *)
Definition Bump : Type := Z.
#[export] Instance Bump_Allocator : Allocator Bump := fun next n => (next, next + n).

(** ** StringRef *)

Module StringRef.
(** static const size_t npos = ~size_t(0) *)
Definition npos : Z := SizeT.lnot 0.

Record t : Type := mk { Data : ptr; Length : Z }.

(** StringRef() = default *)
Definition default : t := mk nullptr 0.

Definition compareMemory (m : Memory byte) (Lhs Rhs : ptr) (Length : Z) : Z :=
  if Length =? 0 then 0 else memcmp m Lhs Rhs (Z.to_nat Length).

(** The arguments a [StringRef] can be constructed from. *)
Inductive CtorArg : Type :=
| ArgNullptrT                          (* std::nullptr_t *)
| ArgCStr (Str : ptr)                  (* const char * *)
| ArgPtrLen (data : ptr) (length : Z). (* const char *, size_t *)

(** StringRef(const char *Str) : Data(Str), Length(Str ? ::strlen(Str) : 0) *)
Definition of_cstr (fuel : nat) (m : Memory byte) (Str : ptr) : option t :=
  if negb (Str =? nullptr) then option_map (mk Str) (strlen fuel m Str)
  else Some (mk Str 0).

(** Overload selection: [None] for the deleted overload, which no program
    that compiles calls; otherwise what the constructor yields at run time
    ([None] there when [strlen] finds no terminator within [fuel] bytes). *)
Definition construct (fuel : nat) (m : Memory byte) (a : CtorArg) : option (option t) :=
  match a with
  | ArgNullptrT => None
  | ArgCStr Str => Some (of_cstr fuel m Str)
  | ArgPtrLen data length => Some (Some (mk data length))
  end.

Definition begin_ (s : t) : ptr := Data s.
Definition end_ (s : t) : ptr := Data s + Length s.
Definition data (s : t) : ptr := Data s.
Definition empty (s : t) : bool := Length s =? 0.
Definition size (s : t) : Z := Length s.

(** The bytes a view designates, first to last. *)
Definition bytes (m : Memory byte) (s : t) : list byte :=
  cells m (Data s) (Z.to_nat (Length s)).

Definition copy {A : Type} `{Allocator A} (s : t) (w : World A) : t * World A :=
  if empty s then (default, w)
  else
    let '(S0, a') := Allocate (allocator w) (Length s) in
    let heap' := std_copy (heap w) (begin_ s) (end_ s) S0 in
    (mk S0 (Length s), mkWorld heap' a' (requests w ++ [Length s])).

Definition equals (m : Memory byte) (s RHS : t) : bool :=
  (Length s =? Length RHS)
  && (compareMemory m (Data s) (Data RHS) (Length RHS) =? 0).

Definition compare (m : Memory byte) (s RHS : t) : Z :=
  let Res := compareMemory m (Data s) (Data RHS) (Z.min (Length s) (Length RHS)) in
  if negb (Res =? 0) then (if Res <? 0 then -1 else 1)
  else if Length s =? Length RHS then 0
  else if Length s <? Length RHS then -1 else 1.

(** Data[Index] *)
Definition char_at (m : Memory byte) (s : t) (Index : Z) : byte :=
  m (Data s + Index).

Definition index (m : Memory byte) (s : t) (Index : Z) : Checked byte :=
  assert (Index <? Length s) "Invalid index!" (Ok (char_at m s Index)).

Definition startswith (m : Memory byte) (s Prefix : t) : bool :=
  (Length s >=? Length Prefix)
  && (compareMemory m (Data s) (Data Prefix) (Length Prefix) =? 0).

Definition endswith (m : Memory byte) (s Suffix : t) : bool :=
  (Length s >=? Length Suffix)
  && (compareMemory m (end_ s - Length Suffix) (Data Suffix) (Length Suffix) =? 0).

Definition find (m : Memory byte) (s : t) (C : byte) (From : Z) : Z :=
  let FindBegin := Z.min From (Length s) in
  if FindBegin <? Length s then
    match memchr m (Data s + FindBegin) C (Z.to_nat (SizeT.sub (Length s) FindBegin)) with
    | Some P => SizeT.wrap (P - Data s)
    | None => npos
    end
  else npos.

(** while (i != 0) { --i; if (Data[i] == C) return i; } return npos; *)
Fixpoint rfind_loop (m : Memory byte) (Data : ptr) (C : byte) (i : nat) : Z :=
  match i with
  | O => npos
  | S i' =>
      if Byte.eqb (m (Data + Z.of_nat i')) C then Z.of_nat i'
      else rfind_loop m Data C i'
  end.

Definition rfind (m : Memory byte) (s : t) (C : byte) (From : Z) : Z :=
  let From := Z.min From (Length s) in
  rfind_loop m (Data s) C (Z.to_nat From).

Definition substr (s : t) (Start N : Z) : t :=
  let Start := Z.min Start (Length s) in
  mk (Data s + Start) (Z.min N (SizeT.sub (Length s) Start)).

Definition drop_front (s : t) (N : Z) : Checked t :=
  assert (size s >=? N) "Dropping more elements than exist" (Ok (substr s N npos)).

Definition drop_back (s : t) (N : Z) : Checked t :=
  assert (size s >=? N) "Dropping more elements than exist"
    (Ok (substr s 0 (SizeT.sub (size s) N))).

Definition take_front (s : t) (N : Z) : Checked t :=
  if N >=? size s then Ok s else drop_back s (SizeT.sub (size s) N).

Definition take_back (s : t) (N : Z) : Checked t :=
  if N >=? size s then Ok s else drop_front s (SizeT.sub (size s) N).

(** The result pairs the value returned with the view [*this] is left as. *)
Definition consume_front (m : Memory byte) (s Prefix : t) : Checked (bool * t) :=
  if negb (startswith m s Prefix) then Ok (false, s)
  else bind (drop_front s (size Prefix)) (fun s' => Ok (true, s')).

Definition consume_back (m : Memory byte) (s Suffix : t) : Checked (bool * t) :=
  if negb (endswith m s Suffix) then Ok (false, s)
  else bind (drop_back s (size Suffix)) (fun s' => Ok (true, s')).

Definition slice (s : t) (Start End : Z) : t :=
  let Start := Z.min Start (Length s) in
  let End := Z.min (Z.max Start End) (Length s) in
  mk (Data s + Start) (SizeT.sub End Start).

Definition split (m : Memory byte) (s : t) (Separator : byte) : t * t :=
  let Idx := find m s Separator 0 in
  if Idx =? npos then (s, default)
  else (slice s 0 Idx, slice s (SizeT.add Idx 1) npos).

(** withNullAsEmpty(data): StringRef(data ? data : ""), where
    [empty_literal] is the address of the string literal. *)
Definition withNullAsEmpty (fuel : nat) (m : Memory byte) (empty_literal : ptr)
    (data : ptr) : option t :=
  of_cstr fuel m (if negb (data =? nullptr) then data else empty_literal).


Definition front (m : Memory byte) (s : t) : Checked byte :=
  assert (negb (empty s)) "!empty()" (Ok (m (Data s + 0))).

Definition back (m : Memory byte) (s : t) : Checked byte :=
  assert (negb (empty s)) "!empty()" (Ok (m (Data s + SizeT.sub (Length s) 1))).

(** str(): the owned string, as the list of its bytes. *)
Definition str (m : Memory byte) (s : t) : list byte :=
  if Data s =? nullptr then [] else cells m (Data s) (Z.to_nat (Length s)).

Definition find_first_of (m : Memory byte) (s : t) (C : byte) (From : Z) : Z :=
  find m s C From.

Definition find_last_of (m : Memory byte) (s : t) (C : byte) (From : Z) : Z :=
  rfind m s C From.

(** for (size_t i = 0, e = Length; i != e; ++i) if (Data[i] == C) ++Count;
    [n] is the number of iterations left, [e - i]. *)
Fixpoint count_loop (m : Memory byte) (Data : ptr) (C : byte) (i : Z) (n : nat)
    (Count : Z) : Z :=
  match n with
  | O => Count
  | S k =>
      count_loop m Data C (SizeT.add i 1) k
        (if Byte.eqb (m (Data + i)) C then SizeT.add Count 1 else Count)
  end.

Definition count (m : Memory byte) (s : t) (C : byte) : Z :=
  count_loop m (Data s) C 0 (Z.to_nat (Length s)) 0.

(** The free operators on StringRef. *)
Definition op_eq (m : Memory byte) (LHS RHS : t) : bool := equals m LHS RHS.
Definition op_ne (m : Memory byte) (LHS RHS : t) : bool := negb (op_eq m LHS RHS).
Definition op_lt (m : Memory byte) (LHS RHS : t) : bool := compare m LHS RHS =? -1.
Definition op_le (m : Memory byte) (LHS RHS : t) : bool := negb (compare m LHS RHS =? 1).
Definition op_gt (m : Memory byte) (LHS RHS : t) : bool := compare m LHS RHS =? 1.
Definition op_ge (m : Memory byte) (LHS RHS : t) : bool := negb (compare m LHS RHS =? -1).
End StringRef.

(** ** Memories and views used as examples *)

Definition text (s : string) : list byte := list_byte_of_string s.

Definition zeroed : Memory byte := fun _ => x00.

(** "ab" at 100, "abc" at 200, "b" at 300, "x" at 400 and at 500,
    "hello world" at 4096, "hello" at 8192, "world" at 8200. *)
Definition ram : Memory byte :=
  poke (poke (poke (poke (poke (poke (poke (poke zeroed
    8200 (text "world")) 8192 (text "hello")) 4096 (text "hello world"))
    500 (text "x")) 400 (text "x")) 300 (text "b")) 200 (text "abc")) 100 (text "ab").

Definition hello_world : StringRef.t := StringRef.mk 4096 11.

(** A world whose allocator hands out addresses from 10000 on. *)
Definition world0 : World Bump := mkWorld ram 10000 [].

(** The elements 10, 20 stored a second time, from address 2000 on. *)
Definition mem3' : Memory Z := poke mem3 2000 [10; 20].

(** ** The lexicographic order on byte strings

    The order [compare] is measured against: bytes as unsigned values, a
    proper prefix before what it is a prefix of. *)
Fixpoint lex_compare (l r : list byte) : Z :=
  match l, r with
  | [], [] => 0
  | [], _ :: _ => -1
  | _ :: _, [] => 1
  | x :: l', y :: r' =>
      if Byte.eqb x y then lex_compare l' r'
      else if uchar x <? uchar y then -1 else 1
  end.

(** Closes [SizeT.in_range z] for a literal [z]. *)
Ltac size_t_lit := vm_compute; split; [discriminate | reflexivity].

(** * Properties *)

(** ** Machine integers *)

Lemma modulus_value : SizeT.modulus = 18446744073709551616.
Proof. reflexivity. Qed.

Lemma npos_value : StringRef.npos = SizeT.modulus - 1.
Proof. reflexivity. Qed.

Lemma wrap_in_range (z : Z) : SizeT.in_range z -> SizeT.wrap z = z.
Proof. intros H. apply Z.mod_small. exact H. Qed.

Lemma sub_in_range (a b : Z) : 0 <= b <= a -> a < SizeT.modulus -> SizeT.sub a b = a - b.
Proof.
  intros Hb Ha. unfold SizeT.sub. apply wrap_in_range. unfold SizeT.in_range. lia.
Qed.

Lemma npos_in_range : SizeT.in_range StringRef.npos.
Proof. unfold SizeT.in_range. rewrite npos_value, modulus_value. lia. Qed.

Lemma uchar_inj (x y : byte) : uchar x = uchar y -> x = y.
Proof.
  unfold uchar. intros H. apply N2Z.inj in H.
  pose proof (Byte.of_to_N x) as Hx. rewrite H, Byte.of_to_N in Hx. congruence.
Qed.

Lemma byte_eqb_refl (x : byte) : Byte.eqb x x = true.
Proof. apply Byte.byte_dec_lb. reflexivity. Qed.

Lemma byte_eqb_neq (x y : byte) : x <> y -> Byte.eqb x y = false.
Proof.
  intros H. destruct (Byte.eqb x y) eqn:E; [|reflexivity].
  apply Byte.byte_dec_bl in E. contradiction.
Qed.

(** ** Cells of a memory *)

Lemma cells_length {T : Type} (m : Memory T) (n : nat) (p : ptr) :
  length (cells m p n) = n.
Proof. revert p. induction n as [|n IH]; intros p; simpl; [|rewrite IH]; reflexivity. Qed.

Lemma cells_nth_error {T : Type} (m : Memory T) (n : nat) (p : ptr) (i : nat) :
  (i < n)%nat -> nth_error (cells m p n) i = Some (m (p + Z.of_nat i)).
Proof.
  revert p i. induction n as [|n IH]; intros p i Hi; [lia|].
  destruct i as [|i]; simpl.
  - rewrite Z.add_0_r. reflexivity.
  - rewrite IH by lia. do 2 f_equal. lia.
Qed.

Lemma cells_app {T : Type} (m : Memory T) (a b : nat) (p : ptr) :
  cells m p (a + b) = cells m p a ++ cells m (p + Z.of_nat a) b.
Proof.
  revert p. induction a as [|a IH]; intros p.
  - simpl. rewrite Z.add_0_r. reflexivity.
  - cbn [Nat.add cells app]. rewrite IH. do 3 f_equal. lia.
Qed.

Lemma firstn_cells {T : Type} (m : Memory T) (k n : nat) (p : ptr) :
  (k <= n)%nat -> firstn k (cells m p n) = cells m p k.
Proof.
  intros Hk. replace n with (k + (n - k))%nat by lia.
  rewrite cells_app, firstn_app, cells_length, Nat.sub_diag, firstn_O, app_nil_r.
  apply firstn_all2. rewrite cells_length. lia.
Qed.

Lemma skipn_cells {T : Type} (m : Memory T) (k n : nat) (p : ptr) :
  (k <= n)%nat -> skipn k (cells m p n) = cells m (p + Z.of_nat k) (n - k).
Proof.
  intros Hk. replace n with (k + (n - k))%nat at 1 by lia.
  rewrite cells_app, skipn_app, cells_length, Nat.sub_diag, skipn_O.
  rewrite skipn_all2 by (rewrite cells_length; lia). reflexivity.
Qed.

Lemma cells_ext {T : Type} (m m' : Memory T) (n : nat) (p q : ptr) :
  (forall i, 0 <= i < Z.of_nat n -> m (p + i) = m' (q + i)) ->
  cells m p n = cells m' q n.
Proof.
  revert p q. induction n as [|n IH]; intros p q H; [reflexivity|].
  simpl. f_equal.
  - specialize (H 0). rewrite !Z.add_0_r in H. apply H. lia.
  - apply IH. intros i Hi. specialize (H (1 + i)).
    rewrite !Z.add_assoc in H. apply H. lia.
Qed.

Lemma cells_eq_inv {T : Type} (m m' : Memory T) (n : nat) (p q : ptr) :
  cells m p n = cells m' q n ->
  forall i, 0 <= i < Z.of_nat n -> m (p + i) = m' (q + i).
Proof.
  intros E i Hi.
  pose proof (cells_nth_error m n p (Z.to_nat i) ltac:(lia)) as H1.
  pose proof (cells_nth_error m' n q (Z.to_nat i) ltac:(lia)) as H2.
  rewrite E, H2, Z2Nat.id in H1 by lia. congruence.
Qed.

(** ** memcmp and memchr *)

Lemma memcmp_zero_iff (m : Memory byte) (n : nat) (p q : ptr) :
  memcmp m p q n = 0 <-> cells m p n = cells m q n.
Proof.
  revert p q. induction n as [|n IH]; intros p q; simpl; [tauto|].
  destruct (Byte.eqb (m p) (m q)) eqn:E.
  - apply Byte.byte_dec_bl in E. rewrite IH, E. split; intros H.
    + f_equal. exact H.
    + injection H as H. exact H.
  - apply Byte.eqb_false in E. split; intros H.
    + exfalso. apply E, uchar_inj. lia.
    + injection H as H _. contradiction.
Qed.

Lemma memcmp_refl (m : Memory byte) (n : nat) (p : ptr) : memcmp m p p n = 0.
Proof. apply memcmp_zero_iff. reflexivity. Qed.

Lemma memcmp_first_difference (m : Memory byte) (n : nat) (p q : ptr) (i : nat) :
  (i < n)%nat ->
  cells m p i = cells m q i ->
  m (p + Z.of_nat i) <> m (q + Z.of_nat i) ->
  memcmp m p q n = uchar (m (p + Z.of_nat i)) - uchar (m (q + Z.of_nat i)).
Proof.
  revert n p q. induction i as [|i IH]; intros n p q Hi Hpre Hd.
  - destruct n as [|n]; [lia|]. simpl in *. rewrite !Z.add_0_r in *.
    rewrite byte_eqb_neq by assumption. reflexivity.
  - destruct n as [|n]; [lia|]. simpl in Hpre. injection Hpre as Hh Ht.
    simpl memcmp. rewrite Hh, byte_eqb_refl.
    replace (p + Z.of_nat (S i)) with (p + 1 + Z.of_nat i) in * by lia.
    replace (q + Z.of_nat (S i)) with (q + 1 + Z.of_nat i) in * by lia.
    apply IH; [lia|assumption|assumption].
Qed.

(** What [memchr] returns: nothing when no byte matches, and otherwise the
    address of the first byte that does. *)
Lemma memchr_spec (m : Memory byte) (C : byte) (n : nat) (p : ptr) :
  (memchr m p C n = None /\ forall i, 0 <= i < Z.of_nat n -> m (p + i) <> C)
  \/ (exists i, 0 <= i < Z.of_nat n /\ memchr m p C n = Some (p + i)
        /\ m (p + i) = C /\ forall j, 0 <= j < i -> m (p + j) <> C).
Proof.
  revert p. induction n as [|n IH]; intros p.
  - left. split; [reflexivity|]. intros i Hi. simpl in Hi. lia.
  - simpl memchr. destruct (Byte.eqb (m p) C) eqn:E.
    + apply Byte.byte_dec_bl in E. right. exists 0.
      rewrite Z.add_0_r. repeat split; try lia. exact E.
    + apply Byte.eqb_false in E.
      destruct (IH (p + 1)) as [[Hn Hall] | (i & Hi & Hs & Hc & Hfirst)].
      * left. split; [exact Hn|]. intros i Hi.
        destruct (Z.eq_dec i 0) as [->|Hne]; [rewrite Z.add_0_r; exact E|].
        replace (p + i) with (p + 1 + (i - 1)) by lia. apply Hall. lia.
      * right. exists (1 + i). rewrite Z.add_assoc. repeat split; try lia; try assumption.
        intros j Hj. destruct (Z.eq_dec j 0) as [->|Hne]; [rewrite Z.add_0_r; exact E|].
        replace (p + j) with (p + 1 + (j - 1)) by lia. apply Hfirst. lia.
Qed.
(** ** ArrayRef: properties *)

Lemma ArrayRef_drop_back_any_count (v : ArrayRef.t) (N : Z) :
  ArrayRef.drop_back v N = ArrayRef.drop_back v 1.
Proof. reflexivity. Qed.

(** C1 (fails on the code): [ArrayRef::drop_back(n)] should return the first
    [size() - n] elements under the precondition [size() >= n].  On a view of
    [10; 20; 30] the call [drop_back(2)] keeps two elements, [10; 20], where
    the first [3 - 2] elements are [10]; [MutableArrayRef::drop_back(2)] on the
    same view keeps [10].  On the empty view [drop_back(0)] fails the
    assertion although [size() >= 0] holds. *)
Theorem ArrayRef_drop_back_ignores_count :
  ArrayRef.drop_back view3 2 = Ok (ArrayRef.mk 1000 2)
  /\ ArrayRef.elements mem3 (ArrayRef.mk 1000 2) = [10; 20]
  /\ firstn (Z.to_nat (ArrayRef.size view3 - 2)) (ArrayRef.elements mem3 view3) = [10]
  /\ MutableArrayRef.drop_back view3 2 = Ok (ArrayRef.mk 1000 1)
  /\ ArrayRef.elements mem3 (ArrayRef.mk 1000 1) = [10]
  /\ ArrayRef.drop_back ArrayRef.default 0 = AssertionFailed "Array is empty"
  /\ MutableArrayRef.drop_back ArrayRef.default 0 = Ok (ArrayRef.mk nullptr 0).
Proof. repeat split; vm_compute; reflexivity. Qed.

(** ** StringRef: sub-views *)

Section SubViews.
Variable m : Memory byte.
Variable s : StringRef.t.
Hypothesis Hlen : SizeT.in_range (StringRef.Length s).

Lemma substr_eq (Start N : Z) :
  0 <= Start ->
  StringRef.substr s Start N =
  StringRef.mk (StringRef.Data s + Z.min Start (StringRef.Length s))
               (Z.min N (StringRef.Length s - Z.min Start (StringRef.Length s))).
Proof.
  intros HS. unfold StringRef.substr. f_equal. f_equal.
  unfold SizeT.in_range in Hlen. apply sub_in_range; lia.
Qed.

Lemma bytes_substr (Start N : Z) :
  0 <= Start -> 0 <= N ->
  StringRef.bytes m (StringRef.substr s Start N) =
  firstn (Z.to_nat N) (skipn (Z.to_nat Start) (StringRef.bytes m s)).
Proof.
  intros HS HN. rewrite substr_eq by assumption.
  unfold StringRef.bytes. cbn [StringRef.Data StringRef.Length].
  unfold SizeT.in_range in Hlen.
  destruct (Z_le_gt_dec Start (StringRef.Length s)) as [Hle|Hgt].
  - rewrite Z.min_l by lia. rewrite skipn_cells by lia. rewrite Z2Nat.id by lia.
    destruct (Z_le_gt_dec N (StringRef.Length s - Start)) as [HN'|HN'].
    + rewrite Z.min_l by lia. rewrite firstn_cells by lia. reflexivity.
    + rewrite Z.min_r by lia. rewrite firstn_all2 by (rewrite cells_length; lia).
      f_equal. lia.
  - rewrite Z.min_r by lia. rewrite skipn_all2 by (rewrite cells_length; lia).
    rewrite firstn_nil. rewrite Z.sub_diag, Z.min_r by lia. reflexivity.
Qed.

Lemma drop_front_ok (N : Z) :
  0 <= N <= StringRef.Length s ->
  StringRef.drop_front s N =
  Ok (StringRef.mk (StringRef.Data s + N) (StringRef.Length s - N)).
Proof.
  intros HN. unfold StringRef.drop_front, assert, StringRef.size.
  destruct (Z.geb_spec (StringRef.Length s) N) as [_|Hlt]; [|lia].
  rewrite substr_eq by lia. rewrite (Z.min_l N) by lia.
  pose proof npos_in_range as Hn. rewrite npos_value in *.
  unfold SizeT.in_range in *. rewrite Z.min_r by lia. reflexivity.
Qed.

Lemma drop_back_ok (N : Z) :
  0 <= N <= StringRef.Length s ->
  StringRef.drop_back s N =
  Ok (StringRef.mk (StringRef.Data s) (StringRef.Length s - N)).
Proof.
  intros HN. unfold StringRef.drop_back, assert, StringRef.size.
  unfold SizeT.in_range in Hlen.
  destruct (Z.geb_spec (StringRef.Length s) N) as [_|Hlt]; [|lia].
  rewrite sub_in_range by lia. rewrite substr_eq by lia.
  rewrite Z.min_l by lia. rewrite Z.add_0_r, Z.sub_0_r, Z.min_l by lia.
  reflexivity.
Qed.

Lemma bytes_skip (N : Z) :
  0 <= N <= StringRef.Length s ->
  StringRef.bytes m (StringRef.mk (StringRef.Data s + N) (StringRef.Length s - N)) =
  skipn (Z.to_nat N) (StringRef.bytes m s).
Proof.
  intros HN. unfold StringRef.bytes. cbn [StringRef.Data StringRef.Length].
  rewrite skipn_cells by lia. rewrite Z2Nat.id by lia. f_equal. lia.
Qed.

Lemma bytes_keep (N : Z) :
  0 <= N <= StringRef.Length s ->
  StringRef.bytes m (StringRef.mk (StringRef.Data s) N) =
  firstn (Z.to_nat N) (StringRef.bytes m s).
Proof.
  intros HN. unfold StringRef.bytes. cbn [StringRef.Data StringRef.Length].
  rewrite firstn_cells by lia. reflexivity.
Qed.
End SubViews.

(** C6: [substr(Start, N)] is a total operation (it has no assertion and
    returns a view, not a [Checked] result).  For all [size_t] arguments the
    start is clamped to [min(Start, size())], which lies in [0, size()]; the
    result begins at the clamped start and has length
    [min(N, size() - clamped start)], computed without wrap-around, so it
    stays inside the original view; its bytes are those of the view after
    skipping [Start] and keeping at most [N], which is empty when [Start] is
    out of range. *)
Theorem StringRef_substr_clamps (m : Memory byte) (s : StringRef.t) (Start N : Z) :
  SizeT.in_range (StringRef.Length s) ->
  SizeT.in_range Start ->
  SizeT.in_range N ->
  let Start' := Z.min Start (StringRef.Length s) in
  let r := StringRef.substr s Start N in
  0 <= Start' <= StringRef.Length s
  /\ StringRef.Data r = StringRef.Data s + Start'
  /\ StringRef.Length r = Z.min N (StringRef.Length s - Start')
  /\ 0 <= StringRef.Length r <= StringRef.Length s - Start'
  /\ StringRef.bytes m r =
     firstn (Z.to_nat N) (skipn (Z.to_nat Start) (StringRef.bytes m s))
  /\ (StringRef.Length s <= Start -> StringRef.bytes m r = []).
Proof.
  intros Hlen HS HN Start' r. unfold SizeT.in_range in *.
  assert (Er : r = StringRef.mk (StringRef.Data s + Start')
                     (Z.min N (StringRef.Length s - Start'))).
  { apply substr_eq; [exact Hlen|lia]. }
  assert (Eb : StringRef.bytes m r =
               firstn (Z.to_nat N) (skipn (Z.to_nat Start) (StringRef.bytes m s))).
  { apply bytes_substr; [exact Hlen|lia|lia]. }
  split; [unfold Start'; lia|].
  split; [rewrite Er; reflexivity|].
  split; [rewrite Er; reflexivity|].
  split; [rewrite Er; cbn [StringRef.Length]; unfold Start'; lia|].
  split; [exact Eb|].
  intros Hout. rewrite Eb.
  rewrite skipn_all2; [apply firstn_nil|].
  unfold StringRef.bytes. rewrite cells_length. lia.
Qed.

Lemma StringRef_substr_clamps_witness :
  StringRef.substr hello_world 6 StringRef.npos = StringRef.mk 4102 5
  /\ StringRef.bytes ram (StringRef.substr hello_world 6 StringRef.npos) = text "world"
  /\ StringRef.bytes ram (StringRef.substr hello_world 100 StringRef.npos) = [].
Proof.
  assert (H11 : SizeT.in_range (StringRef.Length hello_world)) by size_t_lit.
  assert (H6 : SizeT.in_range 6) by size_t_lit.
  assert (H100 : SizeT.in_range 100) by size_t_lit.
  assert (Hn : SizeT.in_range StringRef.npos) by size_t_lit.
  pose proof (StringRef_substr_clamps ram hello_world 6 StringRef.npos H11 H6 Hn)
    as (_ & Hd & Hl & _ & Hb & _).
  pose proof (StringRef_substr_clamps ram hello_world 100 StringRef.npos H11 H100 Hn)
    as (_ & _ & _ & _ & _ & He).
  split; [|split].
  - destruct (StringRef.substr hello_world 6 StringRef.npos) as [d l].
    cbn [StringRef.Data StringRef.Length] in Hd, Hl. rewrite Hd, Hl. reflexivity.
  - rewrite Hb. reflexivity.
  - apply He. vm_compute. discriminate.
Defined.

(** C5: for [n] in [0, size()], [take_front(n)] and [drop_front(n)] both
    return (no assertion fails) and the bytes of the first followed by the
    bytes of the second are the bytes of the view; for [n >= size()],
    [take_front(n)] and [take_back(n)] return the view itself. *)
Theorem StringRef_take_drop_front (m : Memory byte) (s : StringRef.t) (n : Z) :
  SizeT.in_range (StringRef.Length s) ->
  (0 <= n <= StringRef.size s ->
   exists t d,
     StringRef.take_front s n = Ok t /\ StringRef.drop_front s n = Ok d
     /\ StringRef.bytes m t ++ StringRef.bytes m d = StringRef.bytes m s)
  /\ (n >= StringRef.size s ->
      StringRef.take_front s n = Ok s /\ StringRef.take_back s n = Ok s).
Proof.
  intros Hlen. unfold StringRef.size. split.
  - intros Hn. unfold SizeT.in_range in Hlen.
    exists (if n >=? StringRef.Length s then s else StringRef.mk (StringRef.Data s) n).
    exists (StringRef.mk (StringRef.Data s + n) (StringRef.Length s - n)).
    split; [|split].
    + unfold StringRef.take_front, StringRef.size.
      destruct (Z.geb_spec n (StringRef.Length s)) as [Hge|Hlt]; [reflexivity|].
      rewrite sub_in_range by lia. rewrite drop_back_ok by (unfold SizeT.in_range; lia).
      do 2 f_equal. lia.
    + apply drop_front_ok; [exact Hlen|exact Hn].
    + rewrite bytes_skip by exact Hn.
      destruct (Z.geb_spec n (StringRef.Length s)) as [Hge|Hlt].
      * rewrite skipn_all2; [apply app_nil_r|].
        unfold StringRef.bytes. rewrite cells_length. lia.
      * rewrite bytes_keep by lia. apply firstn_skipn.
  - intros Hn. unfold StringRef.take_front, StringRef.take_back, StringRef.size.
    destruct (Z.geb_spec n (StringRef.Length s)) as [_|Hlt]; [split; reflexivity|lia].
Qed.

Lemma StringRef_take_drop_front_witness :
  (exists t d,
     StringRef.take_front hello_world 5 = Ok t /\ StringRef.drop_front hello_world 5 = Ok d
     /\ StringRef.bytes ram t ++ StringRef.bytes ram d = StringRef.bytes ram hello_world)
  /\ StringRef.take_front hello_world 11 = Ok hello_world
  /\ StringRef.take_back hello_world 11 = Ok hello_world.
Proof.
  assert (H11 : SizeT.in_range (StringRef.Length hello_world)) by size_t_lit.
  split.
  - apply (StringRef_take_drop_front ram hello_world 5 H11). vm_compute. split; discriminate.
  - apply (StringRef_take_drop_front ram hello_world 11 H11). vm_compute. discriminate.
Defined.

(** ** StringRef: consuming a prefix or a suffix *)

(** C2: [consume_front(p)] returns exactly what [startswith(p)] gave on the
    view beforehand; when that is true the view is left starting [p.size()]
    bytes later and [p.size()] shorter (its bytes are the old ones without
    the first [p.size()]), and when it is false the view is left as it was,
    same data pointer and same length.  Likewise [consume_back(s)] with
    [endswith(s)], where the data pointer stays and the last [s.size()] bytes
    go.  No assertion fails in either. *)
Theorem StringRef_consume_front_back (m : Memory byte) (v p : StringRef.t) :
  SizeT.in_range (StringRef.Length v) ->
  SizeT.in_range (StringRef.Length p) ->
  (exists v',
     StringRef.consume_front m v p = Ok (StringRef.startswith m v p, v')
     /\ (StringRef.startswith m v p = true ->
         StringRef.Data v' = StringRef.Data v + StringRef.size p
         /\ StringRef.size v' = StringRef.size v - StringRef.size p
         /\ StringRef.bytes m v' =
            skipn (Z.to_nat (StringRef.size p)) (StringRef.bytes m v))
     /\ (StringRef.startswith m v p = false -> v' = v))
  /\ (exists v',
        StringRef.consume_back m v p = Ok (StringRef.endswith m v p, v')
        /\ (StringRef.endswith m v p = true ->
            StringRef.Data v' = StringRef.Data v
            /\ StringRef.size v' = StringRef.size v - StringRef.size p
            /\ StringRef.bytes m v' =
               firstn (Z.to_nat (StringRef.size v - StringRef.size p)) (StringRef.bytes m v))
        /\ (StringRef.endswith m v p = false -> v' = v)).
Proof.
  intros Hv Hp. unfold StringRef.size. split.
  - unfold StringRef.consume_front.
    destruct (StringRef.startswith m v p) eqn:E; cbn [negb].
    + assert (Hle : 0 <= StringRef.Length p <= StringRef.Length v).
      { unfold StringRef.startswith in E. apply andb_prop in E as [E _].
        unfold SizeT.in_range in Hp. apply Z.geb_le in E. lia. }
      unfold StringRef.size. rewrite drop_front_ok by assumption. cbn [bind].
      eexists. split; [reflexivity|]. split; [|discriminate].
      intros _. cbn [StringRef.Data StringRef.Length].
      split; [reflexivity|]. split; [reflexivity|]. apply bytes_skip. exact Hle.
    + exists v. split; [reflexivity|]. split; [discriminate|reflexivity].
  - unfold StringRef.consume_back.
    destruct (StringRef.endswith m v p) eqn:E; cbn [negb].
    + assert (Hle : 0 <= StringRef.Length p <= StringRef.Length v).
      { unfold StringRef.endswith in E. apply andb_prop in E as [E _].
        unfold SizeT.in_range in Hp. apply Z.geb_le in E. lia. }
      unfold StringRef.size. rewrite drop_back_ok by assumption. cbn [bind].
      eexists. split; [reflexivity|]. split; [|discriminate].
      intros _. cbn [StringRef.Data StringRef.Length].
      split; [reflexivity|]. split; [reflexivity|].
      apply bytes_keep. unfold SizeT.in_range in Hv. lia.
    + exists v. split; [reflexivity|]. split; [discriminate|reflexivity].
Qed.

Lemma StringRef_consume_front_back_witness :
  StringRef.consume_front ram hello_world (StringRef.mk 8192 5) =
  Ok (true, StringRef.mk 4101 6)
  /\ StringRef.consume_back ram hello_world (StringRef.mk 8200 5) =
     Ok (true, StringRef.mk 4096 6)
  /\ StringRef.consume_front ram hello_world (StringRef.mk 8200 5) =
     Ok (false, hello_world).
Proof.
  assert (H11 : SizeT.in_range (StringRef.Length hello_world)) by size_t_lit.
  assert (Hh : SizeT.in_range (StringRef.Length (StringRef.mk 8192 5))) by size_t_lit.
  assert (Hw : SizeT.in_range (StringRef.Length (StringRef.mk 8200 5))) by size_t_lit.
  pose proof (StringRef_consume_front_back ram hello_world (StringRef.mk 8192 5) H11 Hh)
    as [(v1 & E1 & T1 & _) _].
  pose proof (StringRef_consume_front_back ram hello_world (StringRef.mk 8200 5) H11 Hw)
    as [(v2 & E2 & _ & F2) (v3 & E3 & T3 & _)].
  split; [|split].
  - rewrite E1. destruct (T1 eq_refl) as (Hd & Hs & _).
    destruct v1 as [d l]. cbn in Hd, Hs. rewrite Hd, Hs. reflexivity.
  - rewrite E3. destruct (T3 eq_refl) as (Hd & Hs & _).
    destruct v3 as [d l]. cbn in Hd, Hs. rewrite Hd, Hs. reflexivity.
  - rewrite E2, (F2 eq_refl). reflexivity.
Defined.

(** ** StringRef: searching *)

Section Searching.
Variable m : Memory byte.
Variable s : StringRef.t.
Variable C : byte.
Hypothesis Hlen : SizeT.in_range (StringRef.Length s).

(** [find] returns [npos] when no byte from [From] on matches, and the
    index of the first that does otherwise. *)
Lemma find_spec (From : Z) :
  0 <= From ->
  (StringRef.find m s C From = StringRef.npos
   /\ forall i, From <= i < StringRef.Length s -> StringRef.char_at m s i <> C)
  \/ (exists i, From <= i < StringRef.Length s
        /\ StringRef.find m s C From = i
        /\ StringRef.char_at m s i = C
        /\ forall j, From <= j < i -> StringRef.char_at m s j <> C).
Proof.
  intros HF. unfold StringRef.find, StringRef.char_at.
  unfold SizeT.in_range in Hlen.
  destruct (Z.ltb_spec (Z.min From (StringRef.Length s)) (StringRef.Length s)) as [Hlt|Hge].
  - rewrite Z.min_l in * by lia. rewrite sub_in_range by lia.
    destruct (memchr_spec m C (Z.to_nat (StringRef.Length s - From))
                (StringRef.Data s + From))
      as [[-> Hall] | (i & Hi & -> & Hc & Hfirst)].
    + left. split; [reflexivity|]. intros i Hi.
      replace (StringRef.Data s + i) with (StringRef.Data s + From + (i - From)) by lia.
      apply Hall. lia.
    + right. exists (From + i). rewrite Z.add_assoc.
      split; [lia|]. split.
      * replace (StringRef.Data s + From + i - StringRef.Data s) with (From + i) by lia.
        apply wrap_in_range. unfold SizeT.in_range. lia.
      * split; [exact Hc|]. intros j Hj.
        replace (StringRef.Data s + j) with (StringRef.Data s + From + (j - From)) by lia.
        apply Hfirst. lia.
  - left. split; [reflexivity|]. intros i Hi. lia.
Qed.

Lemma rfind_loop_spec (n : nat) :
  (StringRef.rfind_loop m (StringRef.Data s) C n = StringRef.npos
   /\ forall i, 0 <= i < Z.of_nat n -> StringRef.char_at m s i <> C)
  \/ (exists i, 0 <= i < Z.of_nat n
        /\ StringRef.rfind_loop m (StringRef.Data s) C n = i
        /\ StringRef.char_at m s i = C
        /\ forall j, i < j < Z.of_nat n -> StringRef.char_at m s j <> C).
Proof.
  unfold StringRef.char_at. induction n as [|n IH].
  - left. split; [reflexivity|]. intros i Hi. simpl in Hi. lia.
  - cbn [StringRef.rfind_loop].
    destruct (Byte.eqb (m (StringRef.Data s + Z.of_nat n)) C) eqn:E.
    + apply Byte.byte_dec_bl in E. right. exists (Z.of_nat n).
      split; [lia|]. split; [reflexivity|]. split; [exact E|]. intros j Hj. lia.
    + apply Byte.eqb_false in E.
      destruct IH as [[Hn Hall] | (i & Hi & Hr & Hc & Hlast)].
      * left. split; [exact Hn|]. intros i Hi.
        destruct (Z.eq_dec i (Z.of_nat n)) as [->|Hne]; [exact E|]. apply Hall. lia.
      * right. exists i. split; [lia|]. split; [exact Hr|]. split; [exact Hc|].
        intros j Hj.
        destruct (Z.eq_dec j (Z.of_nat n)) as [->|Hne]; [exact E|]. apply Hlast. lia.
Qed.

Lemma rfind_spec (From : Z) :
  0 <= From ->
  let bound := Z.min From (StringRef.Length s) in
  (StringRef.rfind m s C From = StringRef.npos
   /\ forall i, 0 <= i < bound -> StringRef.char_at m s i <> C)
  \/ (exists i, 0 <= i < bound
        /\ StringRef.rfind m s C From = i
        /\ StringRef.char_at m s i = C
        /\ forall j, i < j < bound -> StringRef.char_at m s j <> C).
Proof.
  intros HF bound. unfold StringRef.rfind. fold bound.
  unfold SizeT.in_range in Hlen.
  pose proof (rfind_loop_spec (Z.to_nat bound)) as H.
  rewrite Z2Nat.id in H by (unfold bound; lia). exact H.
Qed.

(** An index returned for a match is never the sentinel. *)
Lemma index_below_npos (i : Z) : i < StringRef.Length s -> i <> StringRef.npos.
Proof.
  intros Hi. rewrite npos_value. unfold SizeT.in_range in Hlen. lia.
Qed.
End Searching.

(** C7: [find(c, from)] is the smallest index [i >= from] with [s[i] == c];
    it is [npos] when there is none, in particular when [from >= size()] and
    on the empty view.  [rfind(c, from)] is the largest index
    [i < min(from, size())] with [s[i] == c], and [npos] when there is
    none. *)
Theorem StringRef_find_rfind (m : Memory byte) (s : StringRef.t) (c : byte) (from : Z) :
  SizeT.in_range (StringRef.Length s) ->
  SizeT.in_range from ->
  let bound := Z.min from (StringRef.size s) in
  (forall i, from <= i < StringRef.size s ->
     StringRef.char_at m s i = c ->
     (forall j, from <= j < i -> StringRef.char_at m s j <> c) ->
     StringRef.find m s c from = i)
  /\ ((forall i, from <= i < StringRef.size s -> StringRef.char_at m s i <> c) ->
      StringRef.find m s c from = StringRef.npos)
  /\ (from >= StringRef.size s -> StringRef.find m s c from = StringRef.npos)
  /\ (StringRef.empty s = true ->
      StringRef.find m s c from = StringRef.npos
      /\ StringRef.rfind m s c from = StringRef.npos)
  /\ (forall i, 0 <= i < bound ->
        StringRef.char_at m s i = c ->
        (forall j, i < j < bound -> StringRef.char_at m s j <> c) ->
        StringRef.rfind m s c from = i)
  /\ ((forall i, 0 <= i < bound -> StringRef.char_at m s i <> c) ->
      StringRef.rfind m s c from = StringRef.npos).
Proof.
  intros Hlen Hfrom bound. unfold StringRef.size in *.
  assert (HF : 0 <= from) by (unfold SizeT.in_range in Hfrom; lia).
  assert (Hfind_none :
            (forall i, from <= i < StringRef.Length s -> StringRef.char_at m s i <> c) ->
            StringRef.find m s c from = StringRef.npos).
  { intros Hall.
    destruct (find_spec m s c Hlen from HF) as [[E _] | (i & Hi & _ & Hc & _)];
      [exact E|]. exfalso. exact (Hall i Hi Hc). }
  assert (Hrfind_none :
            (forall i, 0 <= i < bound -> StringRef.char_at m s i <> c) ->
            StringRef.rfind m s c from = StringRef.npos).
  { intros Hall.
    destruct (rfind_spec m s c Hlen from HF) as [[E _] | (i & Hi & _ & Hc & _)];
      [exact E|]. exfalso. exact (Hall i Hi Hc). }
  split; [|split; [|split; [|split; [|split]]]].
  - intros i Hi Hc Hfirst.
    destruct (find_spec m s c Hlen from HF) as [[_ Hall] | (i' & Hi' & E & Hc' & Hfirst')].
    + exfalso. exact (Hall i Hi Hc).
    + rewrite E. destruct (Z.lt_trichotomy i' i) as [Hlt | [Heq | Hgt]].
      * exfalso. apply (Hfirst i'); [lia|exact Hc'].
      * exact Heq.
      * exfalso. apply (Hfirst' i); [lia|exact Hc].
  - exact Hfind_none.
  - intros Hge. apply Hfind_none. intros i Hi. lia.
  - intros He. unfold StringRef.empty in He. apply Z.eqb_eq in He. split.
    + apply Hfind_none. intros i Hi. lia.
    + apply Hrfind_none. intros i Hi. unfold bound in Hi. lia.
  - intros i Hi Hc Hlast.
    destruct (rfind_spec m s c Hlen from HF) as [[_ Hall] | (i' & Hi' & E & Hc' & Hlast')].
    + exfalso. exact (Hall i Hi Hc).
    + rewrite E. destruct (Z.lt_trichotomy i' i) as [Hlt | [Heq | Hgt]].
      * exfalso. apply (Hlast' i); [fold bound; lia|exact Hc].
      * exact Heq.
      * exfalso. apply (Hlast i'); [fold bound in Hi'; lia|exact Hc'].
  - exact Hrfind_none.
Qed.

Lemma StringRef_find_rfind_witness :
  StringRef.find ram hello_world "o" 0 = 4
  /\ StringRef.rfind ram hello_world "o" StringRef.npos = 7
  /\ StringRef.find ram hello_world "o" 11 = StringRef.npos.
Proof.
  assert (H11 : SizeT.in_range (StringRef.Length hello_world)) by size_t_lit.
  assert (H0 : SizeT.in_range 0) by size_t_lit.
  assert (Hn : SizeT.in_range StringRef.npos) by size_t_lit.
  assert (He : SizeT.in_range 11) by size_t_lit.
  pose proof (StringRef_find_rfind ram hello_world "o" 0 H11 H0)
    as (Hfind & _ & _ & _ & _ & _).
  pose proof (StringRef_find_rfind ram hello_world "o" StringRef.npos H11 Hn)
    as (_ & _ & _ & _ & Hrfind & _).
  pose proof (StringRef_find_rfind ram hello_world "o" 11 H11 He)
    as (_ & _ & Hpast & _ & _ & _).
  split; [|split].
  - apply Hfind.
    + vm_compute. split; [discriminate | reflexivity].
    + reflexivity.
    + intros j Hj.
      assert (Hc : j = 0 \/ j = 1 \/ j = 2 \/ j = 3) by lia.
      destruct Hc as [-> | [-> | [-> | ->]]]; vm_compute; discriminate.
  - apply Hrfind.
    + vm_compute. split; [discriminate | reflexivity].
    + reflexivity.
    + intros j Hj. change (Z.min StringRef.npos (StringRef.size hello_world)) with 11 in Hj.
      assert (Hc : j = 8 \/ j = 9 \/ j = 10) by lia.
      destruct Hc as [-> | [-> | ->]]; vm_compute; discriminate.
  - apply Hpast. vm_compute. discriminate.
Defined.

(** ** StringRef: split *)

Lemma In_cells {T : Type} (m : Memory T) (x : T) (n : nat) (p : ptr) :
  In x (cells m p n) <-> exists i, 0 <= i < Z.of_nat n /\ m (p + i) = x.
Proof.
  revert p. induction n as [|n IH]; intros p.
  - simpl. split; [tauto|]. intros (i & Hi & _). lia.
  - cbn [cells In]. rewrite IH. split.
    + intros [H | (i & Hi & H)].
      * exists 0. rewrite Z.add_0_r. split; [lia|exact H].
      * exists (1 + i). rewrite Z.add_assoc. split; [lia|exact H].
    + intros (i & Hi & H). destruct (Z.eq_dec i 0) as [->|Hne].
      * left. rewrite Z.add_0_r in H. exact H.
      * right. exists (i - 1). split; [lia|].
        replace (p + 1 + (i - 1)) with (p + i) by lia. exact H.
Qed.

Lemma In_bytes (m : Memory byte) (s : StringRef.t) (c : byte) :
  0 <= StringRef.Length s ->
  In c (StringRef.bytes m s) <->
  exists i, 0 <= i < StringRef.Length s /\ StringRef.char_at m s i = c.
Proof.
  intros H. unfold StringRef.bytes, StringRef.char_at.
  rewrite In_cells, Z2Nat.id by exact H. reflexivity.
Qed.

Lemma slice_front (s : StringRef.t) (i : Z) :
  SizeT.in_range (StringRef.Length s) -> 0 <= i <= StringRef.Length s ->
  StringRef.slice s 0 i = StringRef.mk (StringRef.Data s) i.
Proof.
  intros Hlen Hi. unfold SizeT.in_range in Hlen. unfold StringRef.slice.
  rewrite (Z.min_l 0) by lia. rewrite Z.max_r by lia. rewrite Z.min_l by lia.
  rewrite sub_in_range by lia. f_equal; lia.
Qed.

Lemma slice_rest (s : StringRef.t) (i : Z) :
  SizeT.in_range (StringRef.Length s) -> 0 <= i <= StringRef.Length s ->
  StringRef.slice s i StringRef.npos =
  StringRef.mk (StringRef.Data s + i) (StringRef.Length s - i).
Proof.
  intros Hlen Hi. unfold SizeT.in_range in Hlen. unfold StringRef.slice.
  rewrite npos_value. rewrite (Z.min_l i) by lia. rewrite Z.max_r by lia.
  rewrite Z.min_r by lia. rewrite sub_in_range by lia. reflexivity.
Qed.

(** C4: when the separator occurs in the view, with [i] the index of its
    first occurrence, [split] returns the view of the [i] bytes before it and
    the view of the bytes after it: the left part holds no separator, and
    left, separator, right in this order are the bytes of the view.  When the
    separator does not occur, [split] returns the view itself and the
    default-constructed (empty) view. *)
Theorem StringRef_split_first_separator (m : Memory byte) (s : StringRef.t) (c : byte) :
  SizeT.in_range (StringRef.Length s) ->
  (In c (StringRef.bytes m s) ->
   exists i,
     0 <= i < StringRef.size s
     /\ StringRef.char_at m s i = c
     /\ (forall j, 0 <= j < i -> StringRef.char_at m s j <> c)
     /\ StringRef.split m s c =
        (StringRef.mk (StringRef.Data s) i,
         StringRef.mk (StringRef.Data s + (i + 1)) (StringRef.size s - (i + 1)))
     /\ StringRef.bytes m (fst (StringRef.split m s c)) =
        firstn (Z.to_nat i) (StringRef.bytes m s)
     /\ StringRef.bytes m (snd (StringRef.split m s c)) =
        skipn (Z.to_nat (i + 1)) (StringRef.bytes m s)
     /\ ~ In c (StringRef.bytes m (fst (StringRef.split m s c)))
     /\ StringRef.bytes m (fst (StringRef.split m s c))
        ++ c :: StringRef.bytes m (snd (StringRef.split m s c))
        = StringRef.bytes m s)
  /\ (~ In c (StringRef.bytes m s) ->
      StringRef.split m s c = (s, StringRef.default)
      /\ StringRef.bytes m (snd (StringRef.split m s c)) = []).
Proof.
  intros Hlen. unfold StringRef.size.
  assert (Hnn : 0 <= StringRef.Length s) by (unfold SizeT.in_range in Hlen; lia).
  destruct (find_spec m s c Hlen 0 (Z.le_refl 0))
    as [[E Hall] | (i & Hi & E & Hc & Hfirst)].
  - assert (Hnot : ~ In c (StringRef.bytes m s)).
    { rewrite In_bytes by exact Hnn. intros (i & Hi & Hc). exact (Hall i Hi Hc). }
    split; [intros Hin; contradiction|]. intros _.
    unfold StringRef.split. rewrite E, Z.eqb_refl. split; reflexivity.
  - assert (Hin : In c (StringRef.bytes m s)).
    { rewrite In_bytes by exact Hnn. exists i. split; [exact Hi|exact Hc]. }
    split; [|intros Hnot; contradiction]. intros _.
    assert (Es : StringRef.split m s c =
                 (StringRef.mk (StringRef.Data s) i,
                  StringRef.mk (StringRef.Data s + (i + 1)) (StringRef.Length s - (i + 1)))).
    { unfold StringRef.split. rewrite E.
      destruct (Z.eqb_spec i StringRef.npos) as [Heq|_].
      - exfalso. exact (index_below_npos s Hlen i (proj2 Hi) Heq).
      - unfold SizeT.add. rewrite wrap_in_range by (unfold SizeT.in_range in *; lia).
        rewrite slice_front by (assumption || lia).
        rewrite slice_rest by (assumption || lia). reflexivity. }
    exists i. rewrite Es. cbn [fst snd].
    assert (Bl : StringRef.bytes m (StringRef.mk (StringRef.Data s) i) =
                 firstn (Z.to_nat i) (StringRef.bytes m s)).
    { apply bytes_keep. lia. }
    assert (Br : StringRef.bytes m
                   (StringRef.mk (StringRef.Data s + (i + 1)) (StringRef.Length s - (i + 1))) =
                 skipn (Z.to_nat (i + 1)) (StringRef.bytes m s)).
    { apply bytes_skip. lia. }
    split; [exact Hi|]. split; [exact Hc|]. split; [exact Hfirst|].
    split; [reflexivity|]. split; [exact Bl|]. split; [exact Br|]. split.
    + rewrite (In_bytes m (StringRef.mk (StringRef.Data s) i) c) by (cbn; lia).
      cbn [StringRef.Length]. unfold StringRef.char_at. cbn [StringRef.Data].
      intros (j & Hj & Hcj). exact (Hfirst j Hj Hcj).
    + rewrite Bl, Br. rewrite <- (firstn_skipn (Z.to_nat i) (StringRef.bytes m s)) at 3.
      f_equal.
      assert (Hnth : nth_error (StringRef.bytes m s) (Z.to_nat i) = Some c).
      { unfold StringRef.bytes. rewrite cells_nth_error by lia.
        rewrite Z2Nat.id by lia. f_equal. exact Hc. }
      replace (Z.to_nat (i + 1)) with (S (Z.to_nat i)) by lia.
      revert Hnth. generalize (Z.to_nat i) as k. generalize (StringRef.bytes m s) as l.
      induction l as [|x l IH]; intros [|k] Hnth; simpl in *; try discriminate.
      * injection Hnth as ->. reflexivity.
      * apply IH. exact Hnth.
Qed.

Lemma StringRef_split_first_separator_witness :
  (exists i,
     StringRef.split ram hello_world " " =
     (StringRef.mk 4096 i, StringRef.mk (4096 + (i + 1)) (11 - (i + 1)))
     /\ StringRef.bytes ram (fst (StringRef.split ram hello_world " "))
        ++ " "%byte :: StringRef.bytes ram (snd (StringRef.split ram hello_world " "))
        = text "hello world")
  /\ StringRef.split ram hello_world "z" = (hello_world, StringRef.default).
Proof.
  assert (H11 : SizeT.in_range (StringRef.Length hello_world)) by size_t_lit.
  pose proof (StringRef_split_first_separator ram hello_world " " H11) as [Hsep _].
  pose proof (StringRef_split_first_separator ram hello_world "z" H11) as [_ Hnone].
  split.
  - destruct Hsep as (i & _ & _ & _ & Es & _ & _ & _ & Ecat).
    + vm_compute. do 5 right. left. reflexivity.
    + exists i. split; [exact Es | exact Ecat].
  - apply Hnone. vm_compute. intuition discriminate.
Defined.

(** ** StringRef: comparison *)

Lemma compareMemory_zero_iff (m : Memory byte) (p q : ptr) (n : Z) :
  StringRef.compareMemory m p q n = 0 <-> cells m p (Z.to_nat n) = cells m q (Z.to_nat n).
Proof.
  unfold StringRef.compareMemory. destruct (Z.eqb_spec n 0) as [->|_].
  - simpl. tauto.
  - apply memcmp_zero_iff.
Qed.

Lemma compareMemory_first_difference (m : Memory byte) (p q : ptr) (n : Z) (i : nat) :
  (i < Z.to_nat n)%nat ->
  cells m p i = cells m q i ->
  m (p + Z.of_nat i) <> m (q + Z.of_nat i) ->
  StringRef.compareMemory m p q n = uchar (m (p + Z.of_nat i)) - uchar (m (q + Z.of_nat i)).
Proof.
  intros Hi Hpre Hd. unfold StringRef.compareMemory.
  destruct (Z.eqb_spec n 0) as [->|_]; [simpl in Hi; lia|].
  apply memcmp_first_difference; assumption.
Qed.

Lemma compareMemory_sym_zero (m : Memory byte) (p q : ptr) (n : Z) :
  (StringRef.compareMemory m p q n =? 0) = (StringRef.compareMemory m q p n =? 0).
Proof.
  destruct (Z.eqb_spec (StringRef.compareMemory m p q n) 0) as [E|E];
    destruct (Z.eqb_spec (StringRef.compareMemory m q p n) 0) as [E'|E'];
    try reflexivity; exfalso; apply compareMemory_zero_iff in E || apply compareMemory_zero_iff in E'.
  - apply E'. apply compareMemory_zero_iff. symmetry. exact E.
  - apply E. apply compareMemory_zero_iff. symmetry. exact E'.
Qed.

(** The overlapping prefixes of two views, as bytes. *)
Lemma common_prefix_cells (m : Memory byte) (a b : StringRef.t) :
  let k := Z.to_nat (Z.min (StringRef.Length a) (StringRef.Length b)) in
  firstn k (StringRef.bytes m a) = cells m (StringRef.Data a) k
  /\ firstn k (StringRef.bytes m b) = cells m (StringRef.Data b) k.
Proof.
  intros k. unfold StringRef.bytes. split; apply firstn_cells; unfold k; lia.
Qed.

(** C3: [a.compare(b)] looks at the first [min(a.size(), b.size())] bytes of
    both views.  If they differ, with [x] and [y] the first pair of
    differing bytes, the result is -1 when [x < y] as unsigned bytes and +1
    otherwise; if they agree, the result is 0 for equal lengths, -1 when [a]
    is shorter and +1 when [a] is longer.  So "ab" against "abc" is -1, "b"
    against "ab" is 1, and "x" against "x" is 0, wherever the views are
    stored. *)
Theorem StringRef_compare_lexicographic (m : Memory byte) (a b : StringRef.t) :
  let k := Z.to_nat (Z.min (StringRef.size a) (StringRef.size b)) in
  (forall i x y,
     nth_error (StringRef.bytes m a) i = Some x ->
     nth_error (StringRef.bytes m b) i = Some y ->
     firstn i (StringRef.bytes m a) = firstn i (StringRef.bytes m b) ->
     x <> y ->
     StringRef.compare m a b = if uchar x <? uchar y then -1 else 1)
  /\ (firstn k (StringRef.bytes m a) = firstn k (StringRef.bytes m b) ->
      (StringRef.size a = StringRef.size b -> StringRef.compare m a b = 0)
      /\ (StringRef.size a < StringRef.size b -> StringRef.compare m a b = -1)
      /\ (StringRef.size a > StringRef.size b -> StringRef.compare m a b = 1))
  /\ (StringRef.bytes m a = text "ab" -> StringRef.bytes m b = text "abc" ->
      StringRef.compare m a b = -1)
  /\ (StringRef.bytes m a = text "b" -> StringRef.bytes m b = text "ab" ->
      StringRef.compare m a b = 1)
  /\ (StringRef.bytes m a = text "x" -> StringRef.bytes m b = text "x" ->
      StringRef.compare m a b = 0).
Proof.
  intros k. unfold StringRef.size in *.
  assert (Hdiff : forall i x y,
     nth_error (StringRef.bytes m a) i = Some x ->
     nth_error (StringRef.bytes m b) i = Some y ->
     firstn i (StringRef.bytes m a) = firstn i (StringRef.bytes m b) ->
     x <> y ->
     StringRef.compare m a b = if uchar x <? uchar y then -1 else 1).
  { intros i x y Hx Hy Hpre Hne.
    assert (Hia : (i < Z.to_nat (StringRef.Length a))%nat).
    { rewrite <- (cells_length m (Z.to_nat (StringRef.Length a)) (StringRef.Data a)).
      apply nth_error_Some. unfold StringRef.bytes in Hx. congruence. }
    assert (Hib : (i < Z.to_nat (StringRef.Length b))%nat).
    { rewrite <- (cells_length m (Z.to_nat (StringRef.Length b)) (StringRef.Data b)).
      apply nth_error_Some. unfold StringRef.bytes in Hy. congruence. }
    unfold StringRef.bytes in *.
    rewrite cells_nth_error in Hx, Hy by assumption.
    injection Hx as Hx. injection Hy as Hy.
    rewrite !firstn_cells in Hpre by lia.
    unfold StringRef.compare.
    rewrite (compareMemory_first_difference m _ _ _ i) by (try lia; congruence).
    rewrite Hx, Hy.
    assert (Hu : uchar x <> uchar y) by (intros E; apply Hne, uchar_inj, E).
    destruct (Z.eqb_spec (uchar x - uchar y) 0) as [E|_]; [lia|]. cbn [negb].
    destruct (Z.ltb_spec (uchar x - uchar y) 0); destruct (Z.ltb_spec (uchar x) (uchar y));
      try reflexivity; lia. }
  assert (Hsame :
     firstn k (StringRef.bytes m a) = firstn k (StringRef.bytes m b) ->
     (StringRef.Length a = StringRef.Length b -> StringRef.compare m a b = 0)
     /\ (StringRef.Length a < StringRef.Length b -> StringRef.compare m a b = -1)
     /\ (StringRef.Length a > StringRef.Length b -> StringRef.compare m a b = 1)).
  { intros Hpre. destruct (common_prefix_cells m a b) as [Ea Eb]. fold k in Ea, Eb.
    rewrite Ea, Eb in Hpre. apply compareMemory_zero_iff in Hpre.
    unfold StringRef.compare. rewrite Hpre. cbn [Z.eqb negb].
    destruct (Z.eqb_spec (StringRef.Length a) (StringRef.Length b));
      destruct (Z.ltb_spec (StringRef.Length a) (StringRef.Length b));
      repeat split; intros; try reflexivity; lia. }
  assert (Hlen : forall v l, StringRef.bytes m v = l -> l <> [] ->
                             StringRef.Length v = Z.of_nat (length l)).
  { intros v l E Hl. assert (El : length (StringRef.bytes m v) = length l) by (rewrite E; reflexivity).
    unfold StringRef.bytes in El. rewrite cells_length in El.
    destruct l; [contradiction|]. simpl length in *. lia. }
  split; [exact Hdiff|]. split; [exact Hsame|]. split; [|split].
  - intros Ha Hb.
    pose proof (Hlen a _ Ha ltac:(discriminate)) as La.
    pose proof (Hlen b _ Hb ltac:(discriminate)) as Lb.
    apply Hsame; [|rewrite La, Lb; reflexivity].
    unfold k. rewrite La, Lb, Ha, Hb. reflexivity.
  - intros Ha Hb.
    apply (Hdiff 0%nat "b"%byte "a"%byte).
    + rewrite Ha. reflexivity.
    + rewrite Hb. reflexivity.
    + reflexivity.
    + discriminate.
  - intros Ha Hb.
    pose proof (Hlen a _ Ha ltac:(discriminate)) as La.
    pose proof (Hlen b _ Hb ltac:(discriminate)) as Lb.
    apply Hsame; [|rewrite La, Lb; reflexivity].
    rewrite Ha, Hb. reflexivity.
Qed.

Lemma StringRef_compare_lexicographic_witness :
  StringRef.compare ram (StringRef.mk 100 2) (StringRef.mk 200 3) = -1
  /\ StringRef.compare ram (StringRef.mk 300 1) (StringRef.mk 100 2) = 1
  /\ StringRef.compare ram (StringRef.mk 400 1) (StringRef.mk 500 1) = 0.
Proof.
  pose proof (StringRef_compare_lexicographic ram (StringRef.mk 100 2) (StringRef.mk 200 3))
    as (_ & _ & Hab & _ & _).
  pose proof (StringRef_compare_lexicographic ram (StringRef.mk 300 1) (StringRef.mk 100 2))
    as (_ & _ & _ & Hb & _).
  pose proof (StringRef_compare_lexicographic ram (StringRef.mk 400 1) (StringRef.mk 500 1))
    as (_ & _ & _ & _ & Hx).
  split; [|split].
  - apply Hab; reflexivity.
  - apply Hb; reflexivity.
  - apply Hx; reflexivity.
Defined.

(** C9: [equals] is reflexive and symmetric; [a.equals(b)] holds exactly
    when [a.compare(b)] is 0; and [equals] is false whenever the lengths
    differ. *)
Theorem StringRef_equals_equivalence (m : Memory byte) (a b : StringRef.t) :
  StringRef.equals m a a = true
  /\ StringRef.equals m a b = StringRef.equals m b a
  /\ (StringRef.equals m a b = true <-> StringRef.compare m a b = 0)
  /\ (StringRef.size a <> StringRef.size b -> StringRef.equals m a b = false).
Proof.
  unfold StringRef.size. split; [|split; [|split]].
  - unfold StringRef.equals. rewrite Z.eqb_refl. cbn [andb].
    apply Z.eqb_eq. apply compareMemory_zero_iff. reflexivity.
  - unfold StringRef.equals.
    destruct (Z.eqb_spec (StringRef.Length a) (StringRef.Length b)) as [E|E].
    + rewrite E, Z.eqb_refl. cbn [andb]. apply compareMemory_sym_zero.
    + destruct (Z.eqb_spec (StringRef.Length b) (StringRef.Length a)) as [E'|_];
        [congruence|reflexivity].
  - unfold StringRef.equals, StringRef.compare. split.
    + intros H. apply andb_prop in H as [HL HC].
      apply Z.eqb_eq in HL. rewrite HL, Z.min_id. rewrite HC. cbn [negb].
      rewrite Z.eqb_refl. reflexivity.
    + destruct (Z.eqb_spec
                  (StringRef.compareMemory m (StringRef.Data a) (StringRef.Data b)
                     (Z.min (StringRef.Length a) (StringRef.Length b))) 0) as [HC|HC];
        cbn [negb].
      * destruct (Z.eqb_spec (StringRef.Length a) (StringRef.Length b)) as [HL|HL].
        -- intros _. rewrite HL, Z.min_id in HC. rewrite HC. reflexivity.
        -- destruct (StringRef.Length a <? StringRef.Length b); discriminate.
      * destruct (_ <? 0); discriminate.
  - intros H. unfold StringRef.equals.
    destruct (Z.eqb_spec (StringRef.Length a) (StringRef.Length b)) as [E|_];
      [contradiction|reflexivity].
Qed.

Lemma StringRef_equals_equivalence_witness :
  StringRef.equals ram (StringRef.mk 400 1) (StringRef.mk 500 1) = true
  /\ StringRef.equals ram (StringRef.mk 100 2) (StringRef.mk 200 3) = false.
Proof.
  pose proof (StringRef_equals_equivalence ram (StringRef.mk 400 1) (StringRef.mk 500 1))
    as (_ & _ & Hx & _).
  pose proof (StringRef_equals_equivalence ram (StringRef.mk 100 2) (StringRef.mk 200 3))
    as (_ & _ & _ & Hab).
  split.
  - apply Hx. reflexivity.
  - apply Hab. vm_compute. discriminate.
Defined.

(** ** StringRef: copy *)

Lemma std_copy_n_outside (n : nat) (m : Memory byte) (first d : ptr) (a : ptr) :
  a < d \/ d + Z.of_nat n <= a ->
  std_copy_n m first d n a = m a.
Proof.
  revert m first d. induction n as [|n IH]; intros m first d Ha; [reflexivity|].
  cbn [std_copy_n]. rewrite IH by lia. unfold store.
  destruct (Z.eqb_spec a d) as [E|_]; [lia|reflexivity].
Qed.

Lemma std_copy_n_inside (n : nat) (m : Memory byte) (first d : ptr) (i : Z) :
  d + Z.of_nat n <= first \/ first + Z.of_nat n <= d ->
  0 <= i < Z.of_nat n ->
  std_copy_n m first d n (d + i) = m (first + i).
Proof.
  revert m first d i. induction n as [|n IH]; intros m first d i Hdis Hi; [simpl in Hi; lia|].
  cbn [std_copy_n]. destruct (Z.eq_dec i 0) as [->|Hne].
  - rewrite std_copy_n_outside by lia. unfold store.
    rewrite !Z.add_0_r, Z.eqb_refl. reflexivity.
  - replace (d + i) with (d + 1 + (i - 1)) by lia.
    rewrite IH by lia. unfold store.
    destruct (Z.eqb_spec (first + 1 + (i - 1)) d) as [E|_]; [lia|].
    f_equal. lia.
Qed.

Section Copy.
Context {A : Type} `{Allocator A}.
Variable s : StringRef.t.
Variable w : World A.

Lemma copy_empty : StringRef.Length s = 0 -> StringRef.copy s w = (StringRef.default, w).
Proof. intros E. unfold StringRef.copy, StringRef.empty. rewrite E. reflexivity. Qed.

Lemma copy_nonempty :
  StringRef.Length s <> 0 ->
  StringRef.copy s w =
  (StringRef.mk (fst (Allocate (allocator w) (StringRef.Length s))) (StringRef.Length s),
   mkWorld
     (std_copy_n (heap w) (StringRef.Data s)
        (fst (Allocate (allocator w) (StringRef.Length s)))
        (Z.to_nat (StringRef.Length s)))
     (snd (Allocate (allocator w) (StringRef.Length s)))
     (requests w ++ [StringRef.Length s])).
Proof.
  intros E. unfold StringRef.copy, StringRef.empty.
  destruct (Z.eqb_spec (StringRef.Length s) 0) as [E'|_]; [contradiction|].
  destruct (Allocate (allocator w) (StringRef.Length s)) as [S0 a'].
  cbn [fst snd]. unfold std_copy, StringRef.begin_, StringRef.end_.
  do 4 f_equal. lia.
Qed.
End Copy.

(** C8: on a non-empty view, [copy] asks the allocator once, for [size()]
    units, and returns the view of that length over the block the allocator
    returned.  When that block does not overlap the bytes of the source
    (the block is fresh), the bytes of the result are the bytes of the
    source, the result's data pointer differs from the source's, and the
    source still reads the same.  On an empty view [copy] returns the
    default-constructed view and leaves allocator, memory and the list of
    requests as they were. *)
Theorem StringRef_copy_fresh {A : Type} `{Allocator A} (s : StringRef.t) (w : World A) :
  SizeT.in_range (StringRef.Length s) ->
  (StringRef.empty s = false ->
   let block := fst (Allocate (allocator w) (StringRef.size s)) in
   let r := fst (StringRef.copy s w) in
   let w' := snd (StringRef.copy s w) in
   requests w' = requests w ++ [StringRef.size s]
   /\ allocator w' = snd (Allocate (allocator w) (StringRef.size s))
   /\ StringRef.Data r = block
   /\ StringRef.size r = StringRef.size s
   /\ (block + StringRef.size s <= StringRef.Data s
       \/ StringRef.Data s + StringRef.size s <= block ->
       StringRef.bytes (heap w') r = StringRef.bytes (heap w) s
       /\ StringRef.Data r <> StringRef.Data s
       /\ StringRef.bytes (heap w') s = StringRef.bytes (heap w) s))
  /\ (StringRef.empty s = true ->
      StringRef.copy s w = (StringRef.default, w)
      /\ StringRef.size (fst (StringRef.copy s w)) = 0
      /\ requests (snd (StringRef.copy s w)) = requests w).
Proof.
  intros Hlen. unfold SizeT.in_range in Hlen. split.
  - intros He block r w'. unfold StringRef.empty in He. apply Z.eqb_neq in He.
    unfold r, w', block, StringRef.size. clear r w' block.
    rewrite (copy_nonempty s w He). cbn [fst snd requests allocator heap].
    cbn [StringRef.Data StringRef.Length].
    split; [reflexivity|]. split; [reflexivity|]. split; [reflexivity|].
    split; [reflexivity|]. intros Hfresh. split; [|split].
    + unfold StringRef.bytes. cbn [StringRef.Data StringRef.Length].
      apply cells_ext. intros i Hi.
      apply std_copy_n_inside; [rewrite Z2Nat.id by lia; exact Hfresh | exact Hi].
    + lia.
    + unfold StringRef.bytes. apply cells_ext. intros i Hi.
      apply std_copy_n_outside. rewrite Z2Nat.id in * by lia. lia.
  - intros He. unfold StringRef.empty in He. apply Z.eqb_eq in He.
    rewrite (copy_empty s w He). split; [reflexivity|]. split; reflexivity.
Qed.

Lemma StringRef_copy_fresh_witness :
  (requests (snd (StringRef.copy hello_world world0)) = [11]
   /\ StringRef.Data (fst (StringRef.copy hello_world world0)) = 10000
   /\ StringRef.bytes (heap (snd (StringRef.copy hello_world world0)))
        (fst (StringRef.copy hello_world world0)) = text "hello world"
   /\ StringRef.Data (fst (StringRef.copy hello_world world0)) <> 4096)
  /\ StringRef.copy StringRef.default world0 = (StringRef.default, world0).
Proof.
  assert (H11 : SizeT.in_range (StringRef.Length hello_world)) by size_t_lit.
  assert (H0 : SizeT.in_range (StringRef.Length StringRef.default)) by size_t_lit.
  pose proof (StringRef_copy_fresh hello_world world0 H11) as [Hcopy _].
  pose proof (StringRef_copy_fresh StringRef.default world0 H0) as [_ Hempty].
  split.
  - destruct (Hcopy eq_refl) as (Hreq & _ & Hd & _ & Hfresh).
    destruct Hfresh as (Hb & Hne & _).
    + right. vm_compute. discriminate.
    + split; [exact Hreq|]. split; [exact Hd|]. split; [exact Hb | exact Hne].
  - apply Hempty. reflexivity.
Defined.

(** ** StringRef: construction from a C string *)

Lemma strlen_unterminated (m : Memory byte) (fuel : nat) (p : ptr) :
  (forall a, m a <> x00) -> strlen fuel m p = None.
Proof.
  intros Hm. revert p. induction fuel as [|fuel IH]; intros p; [reflexivity|].
  cbn [strlen]. rewrite byte_eqb_neq by apply Hm. rewrite IH. reflexivity.
Qed.

(** C10: the constructor from [const char *] applied to a null pointer
    yields, at run time, the view with null data and length 0, so [size()]
    is 0 and [empty()] holds.  It does so whatever the memory holds and
    without a single byte being read: with no fuel for [strlen], and in a
    memory without any terminator, where [strlen] itself never returns.
    For a non-null pointer the length is what [strlen] returns.  The
    overload taking [std::nullptr_t] is deleted. *)
Theorem StringRef_null_cstr_is_empty (fuel : nat) (m : Memory byte) :
  StringRef.construct fuel m (StringRef.ArgCStr nullptr) =
  Some (Some (StringRef.mk nullptr 0))
  /\ StringRef.of_cstr fuel m nullptr = Some (StringRef.mk nullptr 0)
  /\ StringRef.of_cstr 0 m nullptr = Some (StringRef.mk nullptr 0)
  /\ StringRef.size (StringRef.mk nullptr 0) = 0
  /\ StringRef.empty (StringRef.mk nullptr 0) = true
  /\ ((forall a, m a <> x00) ->
      strlen fuel m nullptr = None
      /\ StringRef.of_cstr fuel m nullptr = Some (StringRef.mk nullptr 0))
  /\ (forall Str, Str <> nullptr ->
        StringRef.of_cstr fuel m Str = option_map (StringRef.mk Str) (strlen fuel m Str))
  /\ StringRef.construct fuel m StringRef.ArgNullptrT = None.
Proof.
  repeat split; try reflexivity.
  - apply strlen_unterminated. assumption.
  - intros Str HStr. unfold StringRef.of_cstr.
    destruct (Z.eqb_spec Str nullptr) as [E|_]; [contradiction|reflexivity].
Qed.

Lemma StringRef_null_cstr_is_empty_witness :
  StringRef.of_cstr 0 ram nullptr = Some (StringRef.mk nullptr 0)
  /\ StringRef.of_cstr 12 ram 4096 = Some hello_world
  /\ StringRef.of_cstr 12 (fun _ => "a"%byte) nullptr = Some (StringRef.mk nullptr 0).
Proof.
  pose proof (StringRef_null_cstr_is_empty 0 ram) as (_ & Hnull & _).
  pose proof (StringRef_null_cstr_is_empty 12 ram) as (_ & _ & _ & _ & _ & _ & Hscan & _).
  pose proof (StringRef_null_cstr_is_empty 12 (fun _ => "a"%byte))
    as (_ & _ & _ & _ & _ & Hloop & _).
  split; [exact Hnull|]. split.
  - rewrite Hscan; [reflexivity|]. vm_compute. discriminate.
  - apply Hloop. intros a. discriminate.
Defined.

(** * Further properties of the views *)

(** ** ArrayRef and MutableArrayRef *)

Lemma cells_succ_tl {T : Type} (m : Memory T) (p : ptr) (n : nat) :
  cells m (p + 1) n = tl (cells m p (S n)).
Proof. reflexivity. Qed.

(** X1: [ArrayRef::drop_front()] on a view of at least one element returns
    the view of all elements but the first, one element shorter; on the
    empty view its assertion fails. *)
Theorem ArrayRef_drop_front_tail {T : Type} (m : Memory T) (v : ArrayRef.t) :
  SizeT.in_range (ArrayRef.size v) ->
  (ArrayRef.size v >= 1 ->
   exists v', ArrayRef.drop_front v = Ok v'
              /\ ArrayRef.size v' = ArrayRef.size v - 1
              /\ ArrayRef.elements m v' = tl (ArrayRef.elements m v))
  /\ (ArrayRef.size v = 0 -> ArrayRef.drop_front v = AssertionFailed "Array is empty").
Proof.
  intros Hlen. unfold SizeT.in_range in Hlen. split.
  - intros Hge. unfold ArrayRef.drop_front, assert.
    destruct (Z.geb_spec (ArrayRef.size v) 1) as [_|Hlt]; [|lia].
    eexists. split; [reflexivity|].
    unfold ArrayRef.elements, ArrayRef.data, ArrayRef.size in *.
    cbn [ArrayRef.length_ ArrayRef.data_]. rewrite sub_in_range by lia.
    split; [reflexivity|].
    replace (Z.to_nat (ArrayRef.length_ v)) with (S (Z.to_nat (ArrayRef.length_ v - 1))) by lia.
    apply cells_succ_tl.
  - intros E. unfold ArrayRef.drop_front. rewrite E. reflexivity.
Qed.

Lemma ArrayRef_drop_front_tail_witness :
  (exists v', ArrayRef.drop_front view3 = Ok v'
              /\ ArrayRef.size v' = 3 - 1
              /\ ArrayRef.elements mem3 v' = [20; 30])
  /\ ArrayRef.drop_front ArrayRef.default = AssertionFailed "Array is empty".
Proof.
  assert (H3 : SizeT.in_range (ArrayRef.size view3)) by size_t_lit.
  assert (H0 : SizeT.in_range (ArrayRef.size ArrayRef.default)) by size_t_lit.
  split.
    refine (proj1 (ArrayRef_drop_front_tail mem3 view3 H3) _).
    vm_compute. discriminate.
  - apply (proj2 (ArrayRef_drop_front_tail mem3 ArrayRef.default H0)). reflexivity.
Defined.

(** X2: [ArrayRef::operator[]] at an index below [size()] returns the
    element of that position; at any other index its assertion fails. *)
Theorem ArrayRef_index_nth {T : Type} (m : Memory T) (v : ArrayRef.t) (i : Z) :
  0 <= i ->
  (i < ArrayRef.size v ->
   exists x, ArrayRef.index m v i = Ok x
             /\ nth_error (ArrayRef.elements m v) (Z.to_nat i) = Some x)
  /\ (ArrayRef.size v <= i -> ArrayRef.index m v i = AssertionFailed "Invalid index!").
Proof.
  intros Hi. unfold ArrayRef.index, ArrayRef.size, assert. split.
  - intros Hlt. destruct (Z.ltb_spec i (ArrayRef.length_ v)) as [_|Hge]; [|lia].
    eexists. split; [reflexivity|].
    unfold ArrayRef.elements, ArrayRef.data, ArrayRef.size.
    rewrite cells_nth_error by lia. rewrite Z2Nat.id by lia. reflexivity.
  - intros Hge. destruct (Z.ltb_spec i (ArrayRef.length_ v)) as [Hlt|_]; [lia|reflexivity].
Qed.

Lemma ArrayRef_index_nth_witness :
  (exists x, ArrayRef.index mem3 view3 1 = Ok x
             /\ nth_error (ArrayRef.elements mem3 view3) 1 = Some x)
  /\ ArrayRef.index mem3 view3 3 = AssertionFailed "Invalid index!".
Proof.
  split.
  - refine (proj1 (ArrayRef_index_nth mem3 view3 1 _) _).
    + vm_compute. discriminate.
    + reflexivity.
  - refine (proj2 (ArrayRef_index_nth mem3 view3 3 _) _); vm_compute; discriminate.
Defined.

Section ArrayEquality.
Context {T : Type}.
Variable eqb : T -> T -> bool.
Hypothesis eqb_spec : forall x y, eqb x y = true <-> x = y.

Lemma std_equal_true_iff (m : Memory T) (n : nat) (p q : ptr) :
  std_equal eqb m p q n = true <-> cells m p n = cells m q n.
Proof.
  revert p q. induction n as [|n IH]; intros p q; cbn [std_equal cells]; [tauto|].
  destruct (eqb (m p) (m q)) eqn:E; cbn [negb].
  - apply eqb_spec in E. rewrite IH, E. split; intros H.
    + f_equal. exact H.
    + injection H as H. exact H.
  - split; [discriminate|]. intros H. injection H as H _.
    apply eqb_spec in H. congruence.
Qed.

Lemma ArrayRef_equals_iff (m : Memory T) (a b : ArrayRef.t) :
  0 <= ArrayRef.size a -> 0 <= ArrayRef.size b ->
  ArrayRef.equals eqb m a b = true <-> ArrayRef.elements m a = ArrayRef.elements m b.
Proof.
  unfold ArrayRef.size. intros Ha Hb.
  unfold ArrayRef.equals, ArrayRef.elements, ArrayRef.begin_, ArrayRef.end_,
    ArrayRef.data, ArrayRef.size.
  replace (ArrayRef.data_ a + ArrayRef.length_ a - ArrayRef.data_ a)
    with (ArrayRef.length_ a) by lia.
  destruct (Z.eqb_spec (ArrayRef.length_ a) (ArrayRef.length_ b)) as [E|E]; cbn [negb].
  - rewrite std_equal_true_iff, E. reflexivity.
  - split; [discriminate|]. intros H. exfalso. apply E.
    apply (f_equal (@length T)) in H. rewrite !cells_length in H. lia.
Qed.
End ArrayEquality.

(** X3: with an element equality that decides equality, [ArrayRef::equals]
    holds exactly when the two views designate the same sequence of
    elements, wherever they are stored; so it is reflexive and symmetric,
    and [operator!=] is its negation. *)
Theorem ArrayRef_equals_elements {T : Type} (eqb : T -> T -> bool) (m : Memory T)
    (a b : ArrayRef.t) :
  (forall x y, eqb x y = true <-> x = y) ->
  0 <= ArrayRef.size a -> 0 <= ArrayRef.size b ->
  (ArrayRef.equals eqb m a b = true <-> ArrayRef.elements m a = ArrayRef.elements m b)
  /\ ArrayRef.equals eqb m a a = true
  /\ ArrayRef.equals eqb m a b = ArrayRef.equals eqb m b a
  /\ (ArrayRef.op_ne eqb m a b = true <-> ArrayRef.elements m a <> ArrayRef.elements m b).
Proof.
  intros Heq Ha Hb.
  pose proof (ArrayRef_equals_iff eqb Heq m a b Ha Hb) as Hab.
  pose proof (ArrayRef_equals_iff eqb Heq m b a Hb Ha) as Hba.
  split; [exact Hab|]. split; [|split].
  - apply (ArrayRef_equals_iff eqb Heq m a a Ha Ha). reflexivity.
  - destruct (ArrayRef.equals eqb m a b) eqn:E1; destruct (ArrayRef.equals eqb m b a) eqn:E2;
      try reflexivity; exfalso.
    + assert (F : false = true) by (apply Hba; symmetry; apply Hab; reflexivity).
      discriminate F.
    + assert (F : false = true) by (apply Hab; symmetry; apply Hba; reflexivity).
      discriminate F.
  - unfold ArrayRef.op_ne, ArrayRef.op_eq.
    destruct (ArrayRef.equals eqb m a b) eqn:E; cbn [negb].
    + split; [discriminate|]. intros H. exfalso. apply H, Hab. reflexivity.
    + split; [|reflexivity]. intros _ H. apply Hab in H. discriminate.
Qed.

Lemma ArrayRef_equals_elements_witness :
  ArrayRef.equals Z.eqb mem3' (ArrayRef.mk 1000 2) (ArrayRef.mk 2000 2) = true
  /\ ArrayRef.op_ne Z.eqb mem3' (ArrayRef.mk 1000 3) (ArrayRef.mk 2000 2) = true.
Proof.
  assert (H2 : 0 <= 2) by (vm_compute; discriminate).
  assert (H3 : 0 <= 3) by (vm_compute; discriminate).
  pose proof (ArrayRef_equals_elements Z.eqb mem3' (ArrayRef.mk 1000 2) (ArrayRef.mk 2000 2)
                Z.eqb_eq H2 H2) as (Heq & _).
  pose proof (ArrayRef_equals_elements Z.eqb mem3' (ArrayRef.mk 1000 3) (ArrayRef.mk 2000 2)
                Z.eqb_eq H3 H2) as (_ & _ & _ & Hne).
  split.
  - apply Heq. reflexivity.
  - apply Hne. vm_compute. discriminate.
Defined.

(** X4: building an [ArrayRef] from the [begin()] and [end()] of a view
    gives the view back, and [vec()] holds exactly the elements of the
    view. *)
Theorem ArrayRef_of_range_round_trip {T : Type} (m : Memory T) (v : ArrayRef.t) :
  SizeT.in_range (ArrayRef.size v) ->
  ArrayRef.of_range (ArrayRef.begin_ v) (ArrayRef.end_ v) = v
  /\ ArrayRef.vec m v = ArrayRef.elements m v
  /\ length (ArrayRef.vec m v) = Z.to_nat (ArrayRef.size v).
Proof.
  intros Hlen. unfold ArrayRef.of_range, ArrayRef.vec, ArrayRef.elements,
    ArrayRef.begin_, ArrayRef.end_, ArrayRef.data, ArrayRef.size in *.
  replace (ArrayRef.data_ v + ArrayRef.length_ v - ArrayRef.data_ v)
    with (ArrayRef.length_ v) by lia.
  rewrite wrap_in_range by exact Hlen. rewrite cells_length.
  destruct v; repeat split; reflexivity.
Qed.

Lemma ArrayRef_of_range_round_trip_witness :
  ArrayRef.of_range 1000 1003 = view3 /\ ArrayRef.vec mem3 view3 = [10; 20; 30].
Proof.
  assert (H3 : SizeT.in_range (ArrayRef.size view3)) by size_t_lit.
  pose proof (ArrayRef_of_range_round_trip mem3 view3 H3) as (Hr & Hv & _).
  split; [exact Hr|]. rewrite Hv. reflexivity.
Defined.

Lemma add_in_range (a b : Z) : 0 <= a -> 0 <= b -> a + b < SizeT.modulus -> SizeT.add a b = a + b.
Proof. intros. unfold SizeT.add. apply wrap_in_range. unfold SizeT.in_range. lia. Qed.

Lemma slice_elements {T : Type} (m : Memory T) (v : ArrayRef.t) (N M : Z) :
  0 <= N -> 0 <= M -> N + M <= ArrayRef.size v ->
  ArrayRef.elements m (ArrayRef.mk (ArrayRef.data v + N) M) =
  firstn (Z.to_nat M) (skipn (Z.to_nat N) (ArrayRef.elements m v)).
Proof.
  intros HN HM Hle. unfold ArrayRef.elements, ArrayRef.data, ArrayRef.size in *.
  cbn [ArrayRef.data_ ArrayRef.length_].
  rewrite skipn_cells by lia. rewrite firstn_cells by lia.
  rewrite Z2Nat.id by lia. reflexivity.
Qed.

(** X5: for [size_t] arguments whose sum does not overflow,
    [MutableArrayRef::slice(N, M)] returns the [M] elements that follow the
    first [N] when [N + M <= size()], and fails its assertion otherwise. *)
Theorem MutableArrayRef_slice_elements {T : Type} (m : Memory T) (v : MutableArrayRef.t)
    (N M : Z) :
  0 <= N -> 0 <= M -> N + M < SizeT.modulus ->
  (N + M <= ArrayRef.size v ->
   exists v', MutableArrayRef.slice v N M = Ok v'
              /\ ArrayRef.size v' = M
              /\ ArrayRef.elements m v' =
                 firstn (Z.to_nat M) (skipn (Z.to_nat N) (ArrayRef.elements m v)))
  /\ (ArrayRef.size v < N + M ->
      MutableArrayRef.slice v N M = AssertionFailed "Invalid specifier").
Proof.
  intros HN HM Hsum. unfold MutableArrayRef.slice, assert.
  rewrite add_in_range by assumption. split.
  - intros Hle. destruct (Z.leb_spec (N + M) (ArrayRef.size v)) as [_|Hgt]; [|lia].
    eexists. split; [reflexivity|]. split; [reflexivity|].
    apply slice_elements; assumption.
  - intros Hgt. destruct (Z.leb_spec (N + M) (ArrayRef.size v)) as [Hle|_]; [lia|reflexivity].
Qed.

Lemma MutableArrayRef_slice_elements_witness :
  (exists v', MutableArrayRef.slice view3 1 2 = Ok v'
              /\ ArrayRef.size v' = 2
              /\ ArrayRef.elements mem3 v' = [20; 30])
  /\ MutableArrayRef.slice view3 2 2 = AssertionFailed "Invalid specifier".
Proof.
  split.
  - refine (proj1 (MutableArrayRef_slice_elements mem3 view3 1 2 _ _ _) _);
      vm_compute; (discriminate || reflexivity).
  - refine (proj2 (MutableArrayRef_slice_elements mem3 view3 2 2 _ _ _) _);
      vm_compute; (discriminate || reflexivity).
Defined.



(** X7: for a [size_t] count [N], [MutableArrayRef::drop_front(N)] and
    [drop_back(N)] succeed exactly when [N <= size()]: the first returns the
    elements after the first [N], the second the first [size() - N]
    elements; for a larger [N] both fail the assertion. *)
Theorem MutableArrayRef_drop_front_back {T : Type} (m : Memory T) (v : MutableArrayRef.t)
    (N : Z) :
  SizeT.in_range (ArrayRef.size v) ->
  0 <= N ->
  (N <= ArrayRef.size v ->
   exists f b,
     MutableArrayRef.drop_front v N = Ok f /\ MutableArrayRef.drop_back v N = Ok b
     /\ ArrayRef.elements m f = skipn (Z.to_nat N) (ArrayRef.elements m v)
     /\ ArrayRef.elements m b =
        firstn (Z.to_nat (ArrayRef.size v - N)) (ArrayRef.elements m v))
  /\ (ArrayRef.size v < N ->
      MutableArrayRef.drop_front v N = AssertionFailed "Dropping more elements than exist"
      /\ MutableArrayRef.drop_back v N = AssertionFailed "Dropping more elements than exist").
Proof.
  intros Hlen HN. unfold SizeT.in_range in Hlen.
  unfold MutableArrayRef.drop_front, MutableArrayRef.drop_back, assert. split.
  - intros Hle. destruct (Z.geb_spec (ArrayRef.size v) N) as [_|Hlt]; [|lia].
    rewrite sub_in_range by lia. unfold MutableArrayRef.slice, assert.
    rewrite !add_in_range by lia.
    destruct (Z.leb_spec (N + (ArrayRef.size v - N)) (ArrayRef.size v)) as [_|Hgt]; [|lia].
    destruct (Z.leb_spec (0 + (ArrayRef.size v - N)) (ArrayRef.size v)) as [_|Hgt]; [|lia].
    eexists. eexists. split; [reflexivity|]. split; [reflexivity|]. split.
    + rewrite (slice_elements m v N (ArrayRef.size v - N)) by lia.
      apply firstn_all2. rewrite length_skipn. unfold ArrayRef.elements.
      rewrite cells_length. lia.
    + rewrite (slice_elements m v 0 (ArrayRef.size v - N)) by lia. reflexivity.
  - intros Hgt. destruct (Z.geb_spec (ArrayRef.size v) N) as [Hge|_]; [lia|].
    split; reflexivity.
Qed.

Lemma MutableArrayRef_drop_front_back_witness :
  (exists f b,
     MutableArrayRef.drop_front view3 2 = Ok f /\ MutableArrayRef.drop_back view3 2 = Ok b
     /\ ArrayRef.elements mem3 f = [30]
     /\ ArrayRef.elements mem3 b = [10])
  /\ MutableArrayRef.drop_front view3 4 = AssertionFailed "Dropping more elements than exist".
Proof.
  assert (H3 : SizeT.in_range (ArrayRef.size view3)) by size_t_lit.
  split.
  - refine (proj1 (MutableArrayRef_drop_front_back mem3 view3 2 H3 _) _);
      vm_compute; discriminate.
  - refine (proj1 (proj2 (MutableArrayRef_drop_front_back mem3 view3 4 H3 _) _));
      vm_compute; (discriminate || reflexivity).
Defined.

Lemma cells_store_other {T : Type} (m : Memory T) (a : ptr) (x : T) (n : nat) (p : ptr) :
  a < p \/ p + Z.of_nat n <= a ->
  cells (store m a x) p n = cells m p n.
Proof.
  intros Ha. apply cells_ext. intros i Hi. unfold store.
  destruct (Z.eqb_spec (p + i) a) as [E|_]; [lia|reflexivity].
Qed.

Lemma cells_store_at {T : Type} (m : Memory T) (x : T) (n : nat) (p : ptr) (i : nat) :
  (i < n)%nat ->
  cells (store m (p + Z.of_nat i) x) p n =
  firstn i (cells m p n) ++ x :: skipn (S i) (cells m p n).
Proof.
  intros Hi. rewrite firstn_cells, skipn_cells by lia.
  replace n with (i + S (n - S i))%nat at 1 by lia.
  rewrite cells_app. cbn [cells]. f_equal; [|f_equal].
  - apply cells_store_other. lia.
  - unfold store. rewrite Z.eqb_refl. reflexivity.
  - replace (p + Z.of_nat (S i)) with (p + Z.of_nat i + 1) by lia.
    apply cells_store_other. lia.
Qed.

(** X8: for an index [i < size()], [MutableArrayRef::operator[]] returns a
    reference that reads element [i], and a write through it replaces
    element [i] of the view and no other; [front()] and [back()] are the
    references of the first and the last element of a non-empty view, and
    fail their assertion on an empty one. *)
Theorem MutableArrayRef_write_through {T : Type} (m : Memory T) (v : MutableArrayRef.t)
    (i : Z) (x : T) :
  SizeT.in_range (ArrayRef.size v) ->
  (0 <= i < ArrayRef.size v ->
   exists a,
     MutableArrayRef.index v i = Ok a
     /\ nth_error (ArrayRef.elements m v) (Z.to_nat i) = Some (m a)
     /\ ArrayRef.elements (store m a x) v =
        firstn (Z.to_nat i) (ArrayRef.elements m v)
        ++ x :: skipn (S (Z.to_nat i)) (ArrayRef.elements m v))
  /\ (ArrayRef.size v <> 0 ->
      MutableArrayRef.front v = MutableArrayRef.index v 0
      /\ MutableArrayRef.back v = MutableArrayRef.index v (ArrayRef.size v - 1))
  /\ (ArrayRef.size v = 0 ->
      MutableArrayRef.front v = AssertionFailed "!this->empty()"
      /\ MutableArrayRef.back v = AssertionFailed "!this->empty()").
Proof.
  intros Hlen. unfold SizeT.in_range in Hlen. split; [|split].
  - intros Hi. exists (ArrayRef.data v + i).
    unfold MutableArrayRef.index, assert.
    destruct (Z.ltb_spec i (ArrayRef.size v)) as [_|Hge]; [|lia].
    split; [reflexivity|]. unfold ArrayRef.elements, ArrayRef.size in *. split.
    + rewrite cells_nth_error by lia. rewrite Z2Nat.id by lia. reflexivity.
    + rewrite <- (Z2Nat.id i) at 1 by lia. apply cells_store_at. lia.
  - intros Hne. unfold MutableArrayRef.front, MutableArrayRef.back, MutableArrayRef.index,
      ArrayRef.empty, assert. fold (ArrayRef.size v).
    destruct (Z.eqb_spec (ArrayRef.size v) 0) as [E|_]; [contradiction|]. cbn [negb].
    destruct (Z.ltb_spec 0 (ArrayRef.size v)) as [_|Hge]; [|lia].
    destruct (Z.ltb_spec (ArrayRef.size v - 1) (ArrayRef.size v)) as [_|Hge]; [|lia].
    rewrite sub_in_range by lia. split; reflexivity.
  - intros E. unfold MutableArrayRef.front, MutableArrayRef.back, ArrayRef.empty.
    fold (ArrayRef.size v). rewrite E. split; reflexivity.
Qed.

Lemma MutableArrayRef_write_through_witness :
  (exists a,
     MutableArrayRef.index view3 1 = Ok a
     /\ nth_error (ArrayRef.elements mem3 view3) 1 = Some (mem3 a)
     /\ ArrayRef.elements (store mem3 a 99) view3 = [10; 99; 30])
  /\ MutableArrayRef.back view3 = Ok 1002
  /\ MutableArrayRef.front ArrayRef.default = AssertionFailed "!this->empty()".
Proof.
  assert (H3 : SizeT.in_range (ArrayRef.size view3)) by size_t_lit.
  assert (H0 : SizeT.in_range (ArrayRef.size ArrayRef.default)) by size_t_lit.
  pose proof (MutableArrayRef_write_through mem3 view3 1 99 H3) as (Hw & Hfb & _).
  pose proof (MutableArrayRef_write_through mem3 ArrayRef.default 0 0 H0) as (_ & _ & He).
  split; [|split].
  - apply Hw. vm_compute. split; [discriminate | reflexivity].
  - destruct Hfb as [_ Hb]; [vm_compute; discriminate|]. rewrite Hb. reflexivity.
  - apply He. reflexivity.
Defined.

(** X9: a sub-view shares the cells of its parent: when [slice(N, M)]
    succeeds, the reference [operator[]] gives for index [i] of the slice
    is the one it gives for index [N + i] of the parent, so a write through
    the slice replaces element [N + i] of the parent. *)
Theorem MutableArrayRef_slice_aliases {T : Type} (m : Memory T) (v u : MutableArrayRef.t)
    (N M i : Z) (x : T) :
  SizeT.in_range (ArrayRef.size v) ->
  0 <= N -> 0 <= M -> N + M < SizeT.modulus ->
  MutableArrayRef.slice v N M = Ok u ->
  0 <= i < M ->
  exists a,
    MutableArrayRef.index u i = Ok a
    /\ MutableArrayRef.index v (N + i) = Ok a
    /\ ArrayRef.elements (store m a x) v =
       firstn (Z.to_nat (N + i)) (ArrayRef.elements m v)
       ++ x :: skipn (S (Z.to_nat (N + i))) (ArrayRef.elements m v).
Proof.
  intros Hlen HN HM Hsum Hs Hi. unfold SizeT.in_range in Hlen.
  unfold MutableArrayRef.slice, assert in Hs. rewrite add_in_range in Hs by assumption.
  destruct (Z.leb_spec (N + M) (ArrayRef.size v)) as [Hle|_]; [|discriminate].
  injection Hs as <-. exists (ArrayRef.data v + N + i).
  unfold MutableArrayRef.index, assert, ArrayRef.size, ArrayRef.data in *.
  cbn [ArrayRef.data_ ArrayRef.length_].
  destruct (Z.ltb_spec i M) as [_|Hge]; [|lia].
  destruct (Z.ltb_spec (N + i) (ArrayRef.length_ v)) as [_|Hge]; [|lia].
  split; [reflexivity|]. split; [apply f_equal; lia|].
  unfold ArrayRef.elements, ArrayRef.size, ArrayRef.data.
  replace (ArrayRef.data_ v + N + i) with (ArrayRef.data_ v + Z.of_nat (Z.to_nat (N + i)))
    by (rewrite Z2Nat.id; lia).
  apply cells_store_at. lia.
Qed.

Lemma MutableArrayRef_slice_aliases_witness :
  exists a,
    MutableArrayRef.index (ArrayRef.mk 1001 2) 1 = Ok a
    /\ MutableArrayRef.index view3 (1 + 1) = Ok a
    /\ ArrayRef.elements (store mem3 a 99) view3 = [10; 20; 99].
Proof.
  assert (H3 : SizeT.in_range (ArrayRef.size view3)) by size_t_lit.
  refine (MutableArrayRef_slice_aliases mem3 view3 (ArrayRef.mk 1001 2) 1 2 1 99 H3 _ _ _ _ _);
    vm_compute; try discriminate; try reflexivity.
  split; [discriminate | reflexivity].
Defined.

(** ** iterator_range *)



(** ** StringRef: prefixes, suffixes and equality as facts about bytes *)

Section Affixes.
Variable m : Memory byte.
Variables s p : StringRef.t.
Hypothesis Hs : 0 <= StringRef.Length s.
Hypothesis Hp : 0 <= StringRef.Length p.

Lemma startswith_iff_prefix :
  StringRef.startswith m s p = true <->
  exists rest, StringRef.bytes m s = StringRef.bytes m p ++ rest.
Proof.
  unfold StringRef.startswith, StringRef.bytes. split.
  - intros H. apply andb_prop in H as [Hge Hc].
    apply Z.geb_le in Hge. apply Z.eqb_eq, compareMemory_zero_iff in Hc.
    exists (cells m (StringRef.Data s + StringRef.Length p)
              (Z.to_nat (StringRef.Length s) - Z.to_nat (StringRef.Length p))).
    rewrite <- Hc.
    replace (Z.to_nat (StringRef.Length s))
      with (Z.to_nat (StringRef.Length p)
            + (Z.to_nat (StringRef.Length s) - Z.to_nat (StringRef.Length p)))%nat at 1 by lia.
    rewrite cells_app, Z2Nat.id by lia. reflexivity.
  - intros (rest & E).
    assert (Hlen : (Z.to_nat (StringRef.Length p) <= Z.to_nat (StringRef.Length s))%nat).
    { apply (f_equal (@length byte)) in E. rewrite length_app, !cells_length in E. lia. }
    apply andb_true_intro. split; [apply Z.geb_le; lia|].
    apply Z.eqb_eq, compareMemory_zero_iff.
    rewrite <- (firstn_cells m _ _ (StringRef.Data s) Hlen), E.
    rewrite firstn_app, cells_length, Nat.sub_diag, firstn_O, app_nil_r.
    apply firstn_all2. rewrite cells_length. lia.
Qed.

Lemma endswith_iff_suffix :
  StringRef.endswith m s p = true <->
  exists rest, StringRef.bytes m s = rest ++ StringRef.bytes m p.
Proof.
  unfold StringRef.endswith, StringRef.end_, StringRef.bytes. split.
  - intros H. apply andb_prop in H as [Hge Hc].
    apply Z.geb_le in Hge. apply Z.eqb_eq, compareMemory_zero_iff in Hc.
    exists (cells m (StringRef.Data s)
              (Z.to_nat (StringRef.Length s) - Z.to_nat (StringRef.Length p))).
    rewrite <- Hc.
    replace (Z.to_nat (StringRef.Length s))
      with ((Z.to_nat (StringRef.Length s) - Z.to_nat (StringRef.Length p))
            + Z.to_nat (StringRef.Length p))%nat at 1 by lia.
    rewrite cells_app. do 2 f_equal. lia.
  - intros (rest & E).
    assert (Hlen : length rest =
                   (Z.to_nat (StringRef.Length s) - Z.to_nat (StringRef.Length p))%nat
                   /\ (Z.to_nat (StringRef.Length p) <= Z.to_nat (StringRef.Length s))%nat).
    { apply (f_equal (@length byte)) in E. rewrite length_app, !cells_length in E. lia. }
    destruct Hlen as [Hr Hle].
    apply andb_true_intro. split; [apply Z.geb_le; lia|].
    apply Z.eqb_eq, compareMemory_zero_iff.
    apply (f_equal (skipn (length rest))) in E.
    rewrite skipn_app, skipn_all, Nat.sub_diag, skipn_O in E. cbn [app] in E.
    rewrite skipn_cells in E by lia. rewrite <- E. rewrite Hr. f_equal; lia.
Qed.
End Affixes.

(** X11: for views of non-negative length, [startswith(p)] holds exactly
    when the bytes of the view are the bytes of [p] followed by some rest,
    and [endswith(p)] exactly when they are some rest followed by the bytes
    of [p]; an empty [p] is a prefix and a suffix of every view. *)
Theorem StringRef_startswith_endswith_bytes (m : Memory byte) (s p : StringRef.t) :
  0 <= StringRef.size s -> 0 <= StringRef.size p ->
  (StringRef.startswith m s p = true <->
   exists rest, StringRef.bytes m s = StringRef.bytes m p ++ rest)
  /\ (StringRef.endswith m s p = true <->
      exists rest, StringRef.bytes m s = rest ++ StringRef.bytes m p)
  /\ (StringRef.size p = 0 ->
      StringRef.startswith m s p = true /\ StringRef.endswith m s p = true).
Proof.
  unfold StringRef.size. intros Hs Hp.
  pose proof (startswith_iff_prefix m s p Hs Hp) as Hpre.
  pose proof (endswith_iff_suffix m s p Hs Hp) as Hsuf.
  split; [exact Hpre|]. split; [exact Hsuf|].
  intros E. split.
  - apply Hpre. exists (StringRef.bytes m s). unfold StringRef.bytes at 2. rewrite E. reflexivity.
  - apply Hsuf. exists (StringRef.bytes m s). unfold StringRef.bytes at 3. rewrite E.
    symmetry. apply app_nil_r.
Qed.

Lemma StringRef_startswith_endswith_bytes_witness :
  StringRef.startswith ram hello_world (StringRef.mk 8192 5) = true
  /\ StringRef.endswith ram hello_world (StringRef.mk 8200 5) = true
  /\ StringRef.startswith ram hello_world (StringRef.mk nullptr 0) = true.
Proof.
  assert (H11 : 0 <= StringRef.size hello_world) by (vm_compute; discriminate).
  assert (H5 : 0 <= 5) by (vm_compute; discriminate).
  assert (H0 : 0 <= 0) by (vm_compute; discriminate).
  pose proof (StringRef_startswith_endswith_bytes ram hello_world (StringRef.mk 8192 5) H11 H5)
    as (Hpre & _).
  pose proof (StringRef_startswith_endswith_bytes ram hello_world (StringRef.mk 8200 5) H11 H5)
    as (_ & Hsuf & _).
  pose proof (StringRef_startswith_endswith_bytes ram hello_world (StringRef.mk nullptr 0) H11 H0)
    as (_ & _ & Hempty).
  split; [|split].
  - apply Hpre. exists (text " world"). reflexivity.
  - apply Hsuf. exists (text "hello "). reflexivity.
  - apply Hempty. reflexivity.
Defined.

(** X12: when [consume_front(p)] returns true, the bytes of the view
    beforehand are the bytes of [p] followed by the bytes of the view it
    leaves; when [consume_back(p)] returns true, they are the bytes of the
    view it leaves followed by the bytes of [p]. *)
Theorem StringRef_consume_decomposes (m : Memory byte) (v p v' : StringRef.t) :
  SizeT.in_range (StringRef.size v) ->
  SizeT.in_range (StringRef.size p) ->
  (StringRef.consume_front m v p = Ok (true, v') ->
   StringRef.bytes m v = StringRef.bytes m p ++ StringRef.bytes m v')
  /\ (StringRef.consume_back m v p = Ok (true, v') ->
      StringRef.bytes m v = StringRef.bytes m v' ++ StringRef.bytes m p).
Proof.
  unfold StringRef.size. intros Hv Hp.
  assert (Hv0 : 0 <= StringRef.Length v) by (unfold SizeT.in_range in Hv; lia).
  assert (Hp0 : 0 <= StringRef.Length p) by (unfold SizeT.in_range in Hp; lia).
  split.
  - unfold StringRef.consume_front.
    destruct (StringRef.startswith m v p) eqn:E; cbn [negb]; [|discriminate].
    assert (Hle : 0 <= StringRef.Length p <= StringRef.Length v).
    { unfold StringRef.startswith in E. apply andb_prop in E as [E _].
      apply Z.geb_le in E. lia. }
    unfold StringRef.size. rewrite drop_front_ok by assumption. cbn [bind].
    intros H. injection H as <-. rewrite bytes_skip by exact Hle.
    apply (startswith_iff_prefix m v p Hv0 Hp0) in E as (rest & E).
    rewrite E at 2. rewrite skipn_app.
    rewrite skipn_all2 by (unfold StringRef.bytes; rewrite cells_length; lia).
    unfold StringRef.bytes at 3. rewrite cells_length, Nat.sub_diag, skipn_O. exact E.
  - unfold StringRef.consume_back.
    destruct (StringRef.endswith m v p) eqn:E; cbn [negb]; [|discriminate].
    assert (Hle : 0 <= StringRef.Length p <= StringRef.Length v).
    { unfold StringRef.endswith in E. apply andb_prop in E as [E _].
      apply Z.geb_le in E. lia. }
    unfold StringRef.size. rewrite drop_back_ok by assumption. cbn [bind].
    intros H. injection H as <-. rewrite bytes_keep by lia.
    apply (endswith_iff_suffix m v p Hv0 Hp0) in E as (rest & E).
    assert (Hr : length rest = Z.to_nat (StringRef.Length v - StringRef.Length p)).
    { apply (f_equal (@length byte)) in E. unfold StringRef.bytes in E.
      rewrite length_app, !cells_length in E. lia. }
    rewrite E at 2. rewrite <- Hr, firstn_app, Nat.sub_diag, firstn_O, app_nil_r.
    rewrite firstn_all. exact E.
Qed.

Lemma StringRef_consume_decomposes_witness :
  StringRef.bytes ram hello_world =
  StringRef.bytes ram (StringRef.mk 8192 5) ++ StringRef.bytes ram (StringRef.mk 4101 6)
  /\ StringRef.bytes ram hello_world =
     StringRef.bytes ram (StringRef.mk 4096 6) ++ StringRef.bytes ram (StringRef.mk 8200 5).
Proof.
  assert (H11 : SizeT.in_range (StringRef.size hello_world)) by size_t_lit.
  assert (H5 : SizeT.in_range 5) by size_t_lit.
  split.
  - apply (proj1 (StringRef_consume_decomposes ram hello_world (StringRef.mk 8192 5)
                    (StringRef.mk 4101 6) H11 H5)). reflexivity.
  - apply (proj2 (StringRef_consume_decomposes ram hello_world (StringRef.mk 8200 5)
                    (StringRef.mk 4096 6) H11 H5)). reflexivity.
Defined.

(** ** StringRef: the order of [compare] *)

Lemma compareMemory_memcmp (m : Memory byte) (p q : ptr) (n : Z) :
  StringRef.compareMemory m p q n = memcmp m p q (Z.to_nat n).
Proof.
  unfold StringRef.compareMemory. destruct (Z.eqb_spec n 0) as [->|_]; reflexivity.
Qed.

Lemma memcmp_antisym (m : Memory byte) (n : nat) (p q : ptr) :
  memcmp m q p n = - memcmp m p q n.
Proof.
  revert p q. induction n as [|n IH]; intros p q; cbn [memcmp]; [reflexivity|].
  destruct (Byte.eqb (m p) (m q)) eqn:E.
  - apply Byte.byte_dec_bl in E. rewrite E, byte_eqb_refl. apply IH.
  - apply Byte.eqb_false in E. rewrite byte_eqb_neq by congruence. lia.
Qed.

Lemma memcmp_lex (m : Memory byte) (na nb : nat) (p q : ptr) :
  (let Res := memcmp m p q (Nat.min na nb) in
   if negb (Res =? 0) then (if Res <? 0 then -1 else 1)
   else if Z.of_nat na =? Z.of_nat nb then 0
   else if Z.of_nat na <? Z.of_nat nb then -1 else 1)
  = lex_compare (cells m p na) (cells m q nb).
Proof.
  revert nb p q. induction na as [|na IH]; intros [|nb] p q; try reflexivity.
  cbn [Nat.min memcmp cells lex_compare].
  destruct (Byte.eqb (m p) (m q)) eqn:E.
  - rewrite <- (IH nb (p + 1) (q + 1)). cbv zeta.
    destruct (negb (memcmp m (p + 1) (q + 1) (Nat.min na nb) =? 0)); [reflexivity|].
    destruct (Z.eqb_spec (Z.of_nat (S na)) (Z.of_nat (S nb)));
      destruct (Z.eqb_spec (Z.of_nat na) (Z.of_nat nb)); try lia; try reflexivity.
    destruct (Z.ltb_spec (Z.of_nat (S na)) (Z.of_nat (S nb)));
      destruct (Z.ltb_spec (Z.of_nat na) (Z.of_nat nb)); try lia; reflexivity.
  - apply Byte.eqb_false in E.
    assert (Hu : uchar (m p) <> uchar (m q)) by (intros H; apply E, uchar_inj, H).
    cbv zeta. destruct (Z.eqb_spec (uchar (m p) - uchar (m q)) 0) as [H0|_]; [lia|].
    cbn [negb].
    destruct (Z.ltb_spec (uchar (m p) - uchar (m q)) 0);
      destruct (Z.ltb_spec (uchar (m p)) (uchar (m q))); try lia; reflexivity.
Qed.

Lemma compare_lex (m : Memory byte) (a b : StringRef.t) :
  0 <= StringRef.Length a -> 0 <= StringRef.Length b ->
  StringRef.compare m a b = lex_compare (StringRef.bytes m a) (StringRef.bytes m b).
Proof.
  intros Ha Hb. unfold StringRef.bytes.
  rewrite <- memcmp_lex. unfold StringRef.compare.
  rewrite compareMemory_memcmp, Z2Nat.inj_min, !Z2Nat.id by assumption. reflexivity.
Qed.

Lemma lex_compare_refl (l : list byte) : lex_compare l l = 0.
Proof. induction l as [|x l IH]; cbn; [|rewrite byte_eqb_refl]; auto. Qed.

Lemma lex_compare_zero (l r : list byte) : lex_compare l r = 0 -> l = r.
Proof.
  revert r. induction l as [|x l IH]; intros [|y r]; cbn; try discriminate; [reflexivity|].
  destruct (Byte.eqb x y) eqn:E.
  - apply Byte.byte_dec_bl in E. intros H. f_equal; [exact E | apply IH, H].
  - destruct (uchar x <? uchar y); discriminate.
Qed.

Lemma lex_compare_antisym (l r : list byte) : lex_compare r l = - lex_compare l r.
Proof.
  revert r. induction l as [|x l IH]; intros [|y r]; cbn; try reflexivity.
  destruct (Byte.eqb x y) eqn:E.
  - apply Byte.byte_dec_bl in E. rewrite E, byte_eqb_refl. apply IH.
  - apply Byte.eqb_false in E. rewrite byte_eqb_neq by congruence.
    assert (Hu : uchar x <> uchar y) by (intros H; apply E, uchar_inj, H).
    destruct (Z.ltb_spec (uchar x) (uchar y)); destruct (Z.ltb_spec (uchar y) (uchar x));
      try lia; reflexivity.
Qed.

Lemma lex_compare_trans (a b c : list byte) :
  lex_compare a b = -1 -> lex_compare b c = -1 -> lex_compare a c = -1.
Proof.
  revert b c. induction a as [|x a IH]; intros [|y b] [|z c]; cbn; try discriminate;
    try reflexivity.
  destruct (Byte.eqb x y) eqn:Exy.
  - apply Byte.byte_dec_bl in Exy. subst y.
    destruct (Byte.eqb x z) eqn:Exz; [apply IH|]. intros _ H. exact H.
  - apply Byte.eqb_false in Exy.
    destruct (Z.ltb_spec (uchar x) (uchar y)) as [Hxy|_]; [|discriminate]. intros _.
    destruct (Byte.eqb y z) eqn:Eyz.
    + apply Byte.byte_dec_bl in Eyz. subst z. intros _.
      rewrite byte_eqb_neq by assumption.
      destruct (Z.ltb_spec (uchar x) (uchar y)); [reflexivity|lia].
    + destruct (Z.ltb_spec (uchar y) (uchar z)) as [Hyz|_]; [|discriminate]. intros _.
      assert (Hxz : x <> z) by (intros ->; lia).
      rewrite byte_eqb_neq by assumption.
      destruct (Z.ltb_spec (uchar x) (uchar z)); [reflexivity|lia].
Qed.

Lemma equals_iff_bytes (m : Memory byte) (a b : StringRef.t) :
  0 <= StringRef.Length a -> 0 <= StringRef.Length b ->
  StringRef.equals m a b = true <-> StringRef.bytes m a = StringRef.bytes m b.
Proof.
  intros Ha Hb. unfold StringRef.equals, StringRef.bytes. split.
  - intros H. apply andb_prop in H as [HL HC]. apply Z.eqb_eq in HL.
    apply Z.eqb_eq, compareMemory_zero_iff in HC. rewrite HL. exact HC.
  - intros E.
    assert (HL : StringRef.Length a = StringRef.Length b).
    { apply (f_equal (@length byte)) in E. rewrite !cells_length in E. lia. }
    apply andb_true_intro. split; [apply Z.eqb_eq, HL|].
    apply Z.eqb_eq, compareMemory_zero_iff. rewrite <- HL at 2. rewrite HL at 1.
    rewrite HL in E. exact E.
Qed.

(** X13: for views of non-negative length, [equals] (and [operator==])
    holds exactly when the two views designate the same bytes, whatever
    their addresses; [operator!=] holds exactly when the bytes differ. *)
Theorem StringRef_equals_bytes (m : Memory byte) (a b : StringRef.t) :
  0 <= StringRef.size a -> 0 <= StringRef.size b ->
  (StringRef.op_eq m a b = true <-> StringRef.bytes m a = StringRef.bytes m b)
  /\ (StringRef.op_ne m a b = true <-> StringRef.bytes m a <> StringRef.bytes m b).
Proof.
  unfold StringRef.size, StringRef.op_ne, StringRef.op_eq. intros Ha Hb.
  pose proof (equals_iff_bytes m a b Ha Hb) as H. split; [exact H|].
  destruct (StringRef.equals m a b); cbn [negb].
  - split; [discriminate|]. intros Hne. exfalso. apply Hne, H. reflexivity.
  - split; [|reflexivity]. intros _ E. apply H in E. discriminate.
Qed.

Lemma StringRef_equals_bytes_witness :
  StringRef.op_eq ram (StringRef.mk 4096 5) (StringRef.mk 8192 5) = true
  /\ StringRef.op_ne ram (StringRef.mk 4096 5) (StringRef.mk 8200 5) = true.
Proof.
  assert (H5 : 0 <= 5) by (vm_compute; discriminate).
  pose proof (StringRef_equals_bytes ram (StringRef.mk 4096 5) (StringRef.mk 8192 5) H5 H5)
    as (Heq & _).
  pose proof (StringRef_equals_bytes ram (StringRef.mk 4096 5) (StringRef.mk 8200 5) H5 H5)
    as (_ & Hne).
  split.
  - apply Heq. reflexivity.
  - apply Hne. vm_compute. discriminate.
Defined.

(** X14: for views of non-negative length, [compare] is the lexicographic
    order of the two byte sequences, bytes taken as unsigned: it depends on
    the bytes only, and it is 0 exactly when the bytes are the same. *)
Theorem StringRef_compare_is_lex (m : Memory byte) (a b : StringRef.t) :
  0 <= StringRef.size a -> 0 <= StringRef.size b ->
  StringRef.compare m a b = lex_compare (StringRef.bytes m a) (StringRef.bytes m b)
  /\ (StringRef.compare m a b = 0 <-> StringRef.bytes m a = StringRef.bytes m b)
  /\ (forall (m' : Memory byte) (a' b' : StringRef.t),
        0 <= StringRef.size a' -> 0 <= StringRef.size b' ->
        StringRef.bytes m' a' = StringRef.bytes m a ->
        StringRef.bytes m' b' = StringRef.bytes m b ->
        StringRef.compare m' a' b' = StringRef.compare m a b).
Proof.
  unfold StringRef.size. intros Ha Hb.
  pose proof (compare_lex m a b Ha Hb) as E. split; [exact E|]. split.
  - rewrite E. split; [apply lex_compare_zero|]. intros ->. apply lex_compare_refl.
  - intros m' a' b' Ha' Hb' Ea Eb. rewrite E, (compare_lex m' a' b' Ha' Hb'), Ea, Eb.
    reflexivity.
Qed.

Lemma StringRef_compare_is_lex_witness :
  StringRef.compare ram (StringRef.mk 100 2) (StringRef.mk 200 3) =
  lex_compare (text "ab") (text "abc")
  /\ StringRef.compare ram (StringRef.mk 4096 5) (StringRef.mk 8192 5) = 0.
Proof.
  assert (H2 : 0 <= 2) by (vm_compute; discriminate).
  assert (H3 : 0 <= 3) by (vm_compute; discriminate).
  assert (H5 : 0 <= 5) by (vm_compute; discriminate).
  pose proof (StringRef_compare_is_lex ram (StringRef.mk 100 2) (StringRef.mk 200 3) H2 H3)
    as (E & _).
  pose proof (StringRef_compare_is_lex ram (StringRef.mk 4096 5) (StringRef.mk 8192 5) H5 H5)
    as (_ & Hz & _).
  split; [exact E|]. apply Hz. reflexivity.
Defined.

Lemma compare_antisym (m : Memory byte) (a b : StringRef.t) :
  StringRef.compare m b a = - StringRef.compare m a b.
Proof.
  unfold StringRef.compare. rewrite !compareMemory_memcmp.
  rewrite (Z.min_comm (StringRef.Length b)).
  rewrite (memcmp_antisym m _ (StringRef.Data a) (StringRef.Data b)).
  set (Res := memcmp m (StringRef.Data a) (StringRef.Data b)
                (Z.to_nat (Z.min (StringRef.Length a) (StringRef.Length b)))).
  destruct (Z.eqb_spec (- Res) 0); destruct (Z.eqb_spec Res 0); try lia; cbn [negb].
  - destruct (Z.eqb_spec (StringRef.Length b) (StringRef.Length a));
      destruct (Z.eqb_spec (StringRef.Length a) (StringRef.Length b)); try lia;
      try reflexivity.
    destruct (Z.ltb_spec (StringRef.Length b) (StringRef.Length a));
      destruct (Z.ltb_spec (StringRef.Length a) (StringRef.Length b)); try lia; reflexivity.
  - destruct (Z.ltb_spec (- Res) 0); destruct (Z.ltb_spec Res 0); try lia; reflexivity.
Qed.

Lemma compare_values (m : Memory byte) (a b : StringRef.t) :
  StringRef.compare m a b = -1 \/ StringRef.compare m a b = 0 \/ StringRef.compare m a b = 1.
Proof.
  unfold StringRef.compare.
  destruct (negb _); [destruct (_ <? 0); auto|].
  destruct (_ =? _); [auto|]. destruct (_ <? _); auto.
Qed.

Lemma equals_compare_zero (m : Memory byte) (a b : StringRef.t) :
  StringRef.equals m a b = (StringRef.compare m a b =? 0).
Proof.
  unfold StringRef.equals, StringRef.compare.
  destruct (Z.eqb_spec (StringRef.Length a) (StringRef.Length b)) as [E|E]; cbn [andb].
  - rewrite E, Z.min_id.
    destruct (Z.eqb_spec (StringRef.compareMemory m (StringRef.Data a) (StringRef.Data b)
                            (StringRef.Length b)) 0); cbn [negb]; [reflexivity|].
    destruct (_ <? 0); reflexivity.
  - destruct (negb _); [destruct (_ <? 0); reflexivity|].
    destruct (_ <? _); reflexivity.
Qed.

(** X15: swapping the operands of [compare] negates its result, which is
    always -1, 0 or 1.  So [a > b] is [b < a], [a <= b] is the negation of
    [b < a], [a >= b] is the negation of [a < b], and of [a < b], [a == b],
    [a > b] exactly one holds. *)
Theorem StringRef_order_operators (m : Memory byte) (a b : StringRef.t) :
  StringRef.compare m b a = - StringRef.compare m a b
  /\ (StringRef.compare m a b = -1 \/ StringRef.compare m a b = 0
      \/ StringRef.compare m a b = 1)
  /\ StringRef.op_gt m a b = StringRef.op_lt m b a
  /\ StringRef.op_le m a b = negb (StringRef.op_lt m b a)
  /\ StringRef.op_ge m a b = negb (StringRef.op_lt m a b)
  /\ ((StringRef.op_lt m a b, StringRef.op_eq m a b, StringRef.op_gt m a b) = (true, false, false)
      \/ (StringRef.op_lt m a b, StringRef.op_eq m a b, StringRef.op_gt m a b) = (false, true, false)
      \/ (StringRef.op_lt m a b, StringRef.op_eq m a b, StringRef.op_gt m a b) = (false, false, true)).
Proof.
  pose proof (compare_antisym m a b) as Hanti.
  pose proof (compare_values m a b) as Hval.
  split; [exact Hanti|]. split; [exact Hval|].
  unfold StringRef.op_gt, StringRef.op_lt, StringRef.op_le, StringRef.op_ge, StringRef.op_eq.
  rewrite equals_compare_zero, Hanti.
  destruct Hval as [E | [E | E]]; rewrite E; cbn; auto 10.
Qed.

(** X16: on views of non-negative length [operator<] is a strict order and
    [operator<=] a total one: [a < a] never holds, [a < b] and [b < c] give
    [a < c], of [a <= b] and [b <= a] one always holds, and both hold only
    for views of the same bytes. *)
Theorem StringRef_less_is_strict_order (m : Memory byte) (a b c : StringRef.t) :
  0 <= StringRef.size a -> 0 <= StringRef.size b -> 0 <= StringRef.size c ->
  StringRef.op_lt m a a = false
  /\ (StringRef.op_lt m a b = true -> StringRef.op_lt m b c = true ->
      StringRef.op_lt m a c = true)
  /\ (StringRef.op_le m a b = true \/ StringRef.op_le m b a = true)
  /\ (StringRef.op_le m a b = true -> StringRef.op_le m b a = true ->
      StringRef.bytes m a = StringRef.bytes m b).
Proof.
  unfold StringRef.size, StringRef.op_lt, StringRef.op_le. intros Ha Hb Hc.
  rewrite (compare_lex m a a Ha Ha), (compare_lex m a b Ha Hb), (compare_lex m b c Hb Hc),
    (compare_lex m a c Ha Hc), (compare_lex m b a Hb Ha).
  rewrite lex_compare_refl. split; [reflexivity|]. split; [|split].
  - intros Hab Hbc. apply Z.eqb_eq in Hab, Hbc. apply Z.eqb_eq.
    exact (lex_compare_trans _ _ _ Hab Hbc).
  - rewrite (lex_compare_antisym (StringRef.bytes m a) (StringRef.bytes m b)).
    destruct (Z.eqb_spec (lex_compare (StringRef.bytes m a) (StringRef.bytes m b)) 1) as [E|E].
    + right. rewrite E. reflexivity.
    + left. reflexivity.
  - rewrite (lex_compare_antisym (StringRef.bytes m a) (StringRef.bytes m b)).
    intros H1 H2. apply lex_compare_zero.
    pose proof (compare_values m a b) as Hval. rewrite (compare_lex m a b Ha Hb) in Hval.
    destruct Hval as [E | [E | E]]; rewrite E in *; [discriminate H2 | reflexivity | discriminate H1].
Qed.

Lemma StringRef_less_is_strict_order_witness :
  StringRef.op_lt ram (StringRef.mk 100 2) (StringRef.mk 300 1) = true
  /\ (StringRef.op_le ram (StringRef.mk 100 2) (StringRef.mk 200 3) = true
      \/ StringRef.op_le ram (StringRef.mk 200 3) (StringRef.mk 100 2) = true).
Proof.
  assert (H1 : 0 <= 1) by (vm_compute; discriminate).
  assert (H2 : 0 <= 2) by (vm_compute; discriminate).
  assert (H3 : 0 <= 3) by (vm_compute; discriminate).
  pose proof (StringRef_less_is_strict_order ram (StringRef.mk 100 2) (StringRef.mk 200 3)
                (StringRef.mk 300 1) H2 H3 H1) as (_ & Htrans & Htotal & _).
  split; [|exact Htotal]. apply Htrans; reflexivity.
Defined.

(** ** StringRef: counting and searching *)

Lemma count_loop_spec (m : Memory byte) (D : ptr) (C : byte) (n : nat) (i Count : Z) :
  0 <= i -> 0 <= Count ->
  i + Z.of_nat n < SizeT.modulus -> Count + Z.of_nat n < SizeT.modulus ->
  StringRef.count_loop m D C i n Count =
  Count + Z.of_nat (count_occ Byte.byte_eq_dec (cells m (D + i) n) C).
Proof.
  revert i Count. induction n as [|n IH]; intros i Count Hi HC Hin HCn.
  - cbn. lia.
  - cbn [StringRef.count_loop cells count_occ].
    rewrite (add_in_range i 1) by lia.
    destruct (Byte.eqb (m (D + i)) C) eqn:E.
    + apply Byte.byte_dec_bl in E.
      destruct (Byte.byte_eq_dec (m (D + i)) C) as [_|Hne]; [|contradiction].
      rewrite (add_in_range Count 1) by lia. rewrite IH by lia.
      replace (D + (i + 1)) with (D + i + 1) by lia. lia.
    + apply Byte.eqb_false in E.
      destruct (Byte.byte_eq_dec (m (D + i)) C) as [Heq|_]; [contradiction|].
      rewrite IH by lia. replace (D + (i + 1)) with (D + i + 1) by lia. reflexivity.
Qed.

Lemma find_npos_iff (m : Memory byte) (s : StringRef.t) (C : byte) :
  SizeT.in_range (StringRef.Length s) ->
  StringRef.find m s C 0 = StringRef.npos <-> ~ In C (StringRef.bytes m s).
Proof.
  intros Hlen.
  assert (Hnn : 0 <= StringRef.Length s) by (unfold SizeT.in_range in Hlen; lia).
  rewrite In_bytes by exact Hnn.
  destruct (find_spec m s C Hlen 0 (Z.le_refl 0)) as [[E Hall] | (i & Hi & E & Hc & _)].
  - split; [|intros _; exact E]. intros _ (i & Hi & Hc). exact (Hall i Hi Hc).
  - split.
    + intros En. exfalso. rewrite E in En.
      exact (index_below_npos s Hlen i (proj2 Hi) En).
    + intros Hno. exfalso. apply Hno. exists i. split; [exact Hi | exact Hc].
Qed.

(** X17: [count(C)] is the number of bytes of the view equal to [C]; it
    lies between 0 and [size()], and it is 0 exactly when [find(C)] finds
    nothing. *)
Theorem StringRef_count_occurrences (m : Memory byte) (s : StringRef.t) (C : byte) :
  SizeT.in_range (StringRef.size s) ->
  StringRef.count m s C = Z.of_nat (count_occ Byte.byte_eq_dec (StringRef.bytes m s) C)
  /\ 0 <= StringRef.count m s C <= StringRef.size s
  /\ (StringRef.count m s C = 0 <-> StringRef.find m s C 0 = StringRef.npos).
Proof.
  unfold StringRef.size. intros Hlen.
  assert (E : StringRef.count m s C =
              Z.of_nat (count_occ Byte.byte_eq_dec (StringRef.bytes m s) C)).
  { unfold StringRef.count, StringRef.bytes, SizeT.in_range in *.
    rewrite count_loop_spec by lia. rewrite Z.add_0_r. reflexivity. }
  split; [exact E|]. split.
  - rewrite E.
    pose proof (count_occ_bound Byte.byte_eq_dec C (StringRef.bytes m s)) as Hb.
    unfold StringRef.bytes in Hb at 2. rewrite cells_length in Hb.
    unfold SizeT.in_range in Hlen. lia.
  - rewrite E, (find_npos_iff m s C Hlen).
    rewrite (count_occ_not_In Byte.byte_eq_dec). lia.
Qed.

Lemma StringRef_count_occurrences_witness :
  StringRef.count ram hello_world "o" = 2
  /\ StringRef.count ram hello_world "z" = 0.
Proof.
  assert (H11 : SizeT.in_range (StringRef.size hello_world)) by size_t_lit.
  pose proof (StringRef_count_occurrences ram hello_world "o" H11) as (Eo & _).
  pose proof (StringRef_count_occurrences ram hello_world "z" H11) as (_ & _ & Hz).
  split.
  - rewrite Eo. reflexivity.
  - apply Hz. reflexivity.
Defined.

(** X18: on a view that holds the byte [C], [find(C)] and [rfind(C)] (and
    so [find_first_of] and [find_last_of]) both return an index below
    [size()] where the view holds [C], the first not after the second; on a
    view that does not hold [C] both return [npos]. *)
Theorem StringRef_find_before_rfind (m : Memory byte) (s : StringRef.t) (C : byte) :
  SizeT.in_range (StringRef.size s) ->
  (In C (StringRef.bytes m s) ->
   0 <= StringRef.find_first_of m s C 0
   /\ StringRef.find_first_of m s C 0 <= StringRef.find_last_of m s C StringRef.npos
   /\ StringRef.find_last_of m s C StringRef.npos < StringRef.size s
   /\ StringRef.char_at m s (StringRef.find_first_of m s C 0) = C
   /\ StringRef.char_at m s (StringRef.find_last_of m s C StringRef.npos) = C)
  /\ (~ In C (StringRef.bytes m s) ->
      StringRef.find_first_of m s C 0 = StringRef.npos
      /\ StringRef.find_last_of m s C StringRef.npos = StringRef.npos).
Proof.
  unfold StringRef.size, StringRef.find_first_of, StringRef.find_last_of. intros Hlen.
  assert (Hnn : 0 <= StringRef.Length s) by (unfold SizeT.in_range in Hlen; lia).
  assert (Hnpos : 0 <= StringRef.npos) by (rewrite npos_value, modulus_value; lia).
  pose proof (rfind_spec m s C Hlen StringRef.npos Hnpos) as Hr. cbv zeta in Hr.
  assert (Hb : Z.min StringRef.npos (StringRef.Length s) = StringRef.Length s).
  { unfold SizeT.in_range in Hlen. rewrite npos_value. lia. }
  rewrite Hb in Hr.
  rewrite In_bytes by exact Hnn.
  destruct (find_spec m s C Hlen 0 (Z.le_refl 0)) as [[Ef Hall] | (i & Hi & Ef & Hc & Hfirst)].
  - split; [intros (i & Hi & Hc); exfalso; exact (Hall i Hi Hc)|]. intros _.
    split; [exact Ef|].
    destruct Hr as [[Er _] | (j & Hj & _ & Hcj & _)]; [exact Er|].
    exfalso. exact (Hall j Hj Hcj).
  - split; [|intros Hno; exfalso; apply Hno; exists i; split; [exact Hi | exact Hc]].
    intros _.
    destruct Hr as [[_ Hall] | (j & Hj & Er & Hcj & Hlast)];
      [exfalso; exact (Hall i Hi Hc)|].
    rewrite Ef, Er. repeat split; try lia; try assumption.
    destruct (Z_le_gt_dec i j) as [Hle|Hgt]; [exact Hle|].
    exfalso. apply (Hfirst j); [lia | exact Hcj].
Qed.

Lemma StringRef_find_before_rfind_witness :
  StringRef.find_first_of ram hello_world "o" 0
  <= StringRef.find_last_of ram hello_world "o" StringRef.npos
  /\ StringRef.find_last_of ram hello_world "z" StringRef.npos = StringRef.npos.
Proof.
  assert (H11 : SizeT.in_range (StringRef.size hello_world)) by size_t_lit.
  pose proof (StringRef_find_before_rfind ram hello_world "o" H11) as (Hin & _).
  pose proof (StringRef_find_before_rfind ram hello_world "z" H11) as (_ & Hout).
  split.
  - apply Hin. vm_compute. do 4 right. left. reflexivity.
  - apply Hout. vm_compute. intuition discriminate.
Defined.

(** ** StringRef: slice, take_back, drop_back and element access *)

Lemma slice_eq (s : StringRef.t) (Start End : Z) :
  SizeT.in_range (StringRef.Length s) -> 0 <= Start ->
  StringRef.slice s Start End =
  StringRef.mk (StringRef.Data s + Z.min Start (StringRef.Length s))
    (Z.min (Z.max (Z.min Start (StringRef.Length s)) End) (StringRef.Length s)
     - Z.min Start (StringRef.Length s)).
Proof.
  intros Hlen HS. unfold SizeT.in_range in Hlen. unfold StringRef.slice.
  rewrite sub_in_range by lia. reflexivity.
Qed.

(** X19: [slice(Start, End)] never fails and never yields a negative
    length: its bytes are those of the view after skipping [Start] and
    keeping at most [End - Start], so it is empty when [End <= Start] or
    [Start >= size()]; it is [substr(Start, End - Start)] when
    [Start <= End]; and [slice(0, size())] is the view itself. *)
Theorem StringRef_slice_clamps (m : Memory byte) (s : StringRef.t) (Start End : Z) :
  SizeT.in_range (StringRef.size s) ->
  SizeT.in_range Start ->
  SizeT.in_range End ->
  StringRef.Data (StringRef.slice s Start End) = StringRef.Data s + Z.min Start (StringRef.size s)
  /\ 0 <= StringRef.size (StringRef.slice s Start End)
       <= StringRef.size s - Z.min Start (StringRef.size s)
  /\ StringRef.bytes m (StringRef.slice s Start End) =
     firstn (Z.to_nat (End - Start)) (skipn (Z.to_nat Start) (StringRef.bytes m s))
  /\ (End <= Start -> StringRef.size (StringRef.slice s Start End) = 0)
  /\ (Start <= End -> StringRef.slice s Start End = StringRef.substr s Start (End - Start))
  /\ StringRef.slice s 0 (StringRef.size s) = s.
Proof.
  unfold StringRef.size. intros Hlen HS HE.
  assert (HS0 : 0 <= Start) by (unfold SizeT.in_range in HS; lia).
  pose proof Hlen as Hlen'. unfold SizeT.in_range in Hlen', HS, HE.
  split; [|split; [|split; [|split; [|split]]]].
  - rewrite slice_eq by assumption. reflexivity.
  - rewrite slice_eq by assumption. cbn [StringRef.Length]. lia.
  - destruct (Z_le_gt_dec Start End) as [Hle|Hgt].
    + rewrite <- (bytes_substr m s Hlen Start (End - Start)) by lia.
      f_equal. rewrite slice_eq, substr_eq by assumption. f_equal. lia.
    + replace (Z.to_nat (End - Start)) with 0%nat by lia. rewrite firstn_O.
      rewrite slice_eq by assumption. unfold StringRef.bytes. cbn [StringRef.Length].
      replace (Z.to_nat _) with 0%nat by lia. reflexivity.
  - intros Hle. rewrite slice_eq by assumption. cbn [StringRef.Length]. lia.
  - intros Hle. rewrite slice_eq, substr_eq by assumption. f_equal. lia.
  - rewrite slice_eq by (assumption || lia). destruct s as [d l].
    cbn [StringRef.Data StringRef.Length] in *. f_equal; lia.
Qed.

Lemma StringRef_slice_clamps_witness :
  StringRef.bytes ram (StringRef.slice hello_world 6 100) = text "world"
  /\ StringRef.size (StringRef.slice hello_world 8 3) = 0
  /\ StringRef.slice hello_world 0 11 = hello_world.
Proof.
  assert (H11 : SizeT.in_range (StringRef.size hello_world)) by size_t_lit.
  assert (H0 : SizeT.in_range 0) by size_t_lit.
  assert (H3 : SizeT.in_range 3) by size_t_lit.
  assert (H6 : SizeT.in_range 6) by size_t_lit.
  assert (H8 : SizeT.in_range 8) by size_t_lit.
  assert (H100 : SizeT.in_range 100) by size_t_lit.
  pose proof (StringRef_slice_clamps ram hello_world 6 100 H11 H6 H100) as (_ & _ & Hb & _).
  pose proof (StringRef_slice_clamps ram hello_world 8 3 H11 H8 H3) as (_ & _ & _ & He & _).
  pose proof (StringRef_slice_clamps ram hello_world 0 11 H11 H0 H11) as (_ & _ & _ & _ & _ & Hw).
  split; [|split].
  - rewrite Hb. reflexivity.
  - apply He. vm_compute. discriminate.
  - exact Hw.
Defined.

(** X20: for a [size_t] count [n <= size()], [drop_back(n)] and
    [take_back(n)] both return, [take_back(n)] has [n] bytes, and the bytes
    of the first followed by the bytes of the second are the bytes of the
    view; for [n > size()], [drop_front(n)] and [drop_back(n)] fail their
    assertion while [take_back(n)] returns the view. *)
Theorem StringRef_drop_take_back (m : Memory byte) (s : StringRef.t) (n : Z) :
  SizeT.in_range (StringRef.size s) ->
  0 <= n ->
  (n <= StringRef.size s ->
   exists d t,
     StringRef.drop_back s n = Ok d /\ StringRef.take_back s n = Ok t
     /\ StringRef.size t = n
     /\ StringRef.bytes m d ++ StringRef.bytes m t = StringRef.bytes m s)
  /\ (StringRef.size s < n ->
      StringRef.drop_front s n = AssertionFailed "Dropping more elements than exist"
      /\ StringRef.drop_back s n = AssertionFailed "Dropping more elements than exist"
      /\ StringRef.take_back s n = Ok s).
Proof.
  unfold StringRef.size. intros Hlen Hn. pose proof Hlen as Hlen'.
  unfold SizeT.in_range in Hlen'. split.
  - intros Hle.
    exists (StringRef.mk (StringRef.Data s) (StringRef.Length s - n)).
    exists (if n >=? StringRef.Length s then s
            else StringRef.mk (StringRef.Data s + (StringRef.Length s - n)) n).
    split; [apply drop_back_ok; [exact Hlen | lia]|].
    unfold StringRef.take_back, StringRef.size.
    destruct (Z.geb_spec n (StringRef.Length s)) as [Hge|Hlt].
    + split; [reflexivity|]. split; [lia|].
      replace (StringRef.Length s - n) with 0 by lia. apply app_nil_l.
    + rewrite sub_in_range by lia. rewrite drop_front_ok by (assumption || lia).
      split; [do 2 f_equal; lia|]. split; [reflexivity|].
      rewrite bytes_keep by lia.
      assert (Et : StringRef.bytes m
                     (StringRef.mk (StringRef.Data s + (StringRef.Length s - n)) n) =
                   skipn (Z.to_nat (StringRef.Length s - n)) (StringRef.bytes m s)).
      { rewrite <- (bytes_skip m s (StringRef.Length s - n)) by lia.
        f_equal. f_equal. lia. }
      rewrite Et. apply firstn_skipn.
  - intros Hgt. unfold StringRef.drop_front, StringRef.drop_back, StringRef.take_back,
      StringRef.size, assert.
    destruct (Z.geb_spec (StringRef.Length s) n) as [Hge|_]; [lia|].
    destruct (Z.geb_spec n (StringRef.Length s)) as [_|Hlt]; [|lia].
    repeat split; reflexivity.
Qed.

Lemma StringRef_drop_take_back_witness :
  (exists d t,
     StringRef.drop_back hello_world 5 = Ok d /\ StringRef.take_back hello_world 5 = Ok t
     /\ StringRef.size t = 5
     /\ StringRef.bytes ram d ++ StringRef.bytes ram t = StringRef.bytes ram hello_world)
  /\ StringRef.drop_front hello_world 12 = AssertionFailed "Dropping more elements than exist".
Proof.
  assert (H11 : SizeT.in_range (StringRef.size hello_world)) by size_t_lit.
  split.
  - refine (proj1 (StringRef_drop_take_back ram hello_world 5 H11 _) _);
      vm_compute; discriminate.
  - refine (proj1 (proj2 (StringRef_drop_take_back ram hello_world 12 H11 _) _));
      vm_compute; (discriminate || reflexivity).
Defined.

(** X21: on a non-empty view [front()] and [back()] return the first and
    the last byte, and [operator[]] at an index below [size()] the byte of
    that position; on the empty view [front()] and [back()] fail their
    assertion, and so does [operator[]] at any index from [size()] on. *)
Theorem StringRef_front_back_index (m : Memory byte) (s : StringRef.t) (i : Z) :
  SizeT.in_range (StringRef.size s) ->
  0 <= i ->
  (StringRef.size s <> 0 ->
   exists x y,
     StringRef.front m s = Ok x /\ StringRef.back m s = Ok y
     /\ nth_error (StringRef.bytes m s) 0 = Some x
     /\ nth_error (StringRef.bytes m s) (Z.to_nat (StringRef.size s - 1)) = Some y)
  /\ (StringRef.size s = 0 ->
      StringRef.front m s = AssertionFailed "!empty()"
      /\ StringRef.back m s = AssertionFailed "!empty()")
  /\ (i < StringRef.size s ->
      exists x, StringRef.index m s i = Ok x
                /\ nth_error (StringRef.bytes m s) (Z.to_nat i) = Some x)
  /\ (StringRef.size s <= i -> StringRef.index m s i = AssertionFailed "Invalid index!").
Proof.
  unfold StringRef.size. intros Hlen Hi. unfold SizeT.in_range in Hlen.
  split; [|split; [|split]].
  - intros Hne. unfold StringRef.front, StringRef.back, StringRef.empty, assert.
    destruct (Z.eqb_spec (StringRef.Length s) 0) as [E|_]; [contradiction|]. cbn [negb].
    eexists. eexists. split; [reflexivity|]. split; [reflexivity|].
    unfold StringRef.bytes. rewrite !cells_nth_error by lia.
    rewrite sub_in_range by lia. rewrite Z2Nat.id by lia. split; reflexivity.
  - intros E. unfold StringRef.front, StringRef.back, StringRef.empty. rewrite E.
    split; reflexivity.
  - intros Hlt. unfold StringRef.index, StringRef.char_at, assert.
    destruct (Z.ltb_spec i (StringRef.Length s)) as [_|Hge]; [|lia].
    eexists. split; [reflexivity|]. unfold StringRef.bytes.
    rewrite cells_nth_error by lia. rewrite Z2Nat.id by lia. reflexivity.
  - intros Hge. unfold StringRef.index, assert.
    destruct (Z.ltb_spec i (StringRef.Length s)) as [Hlt|_]; [lia|reflexivity].
Qed.

Lemma StringRef_front_back_index_witness :
  (exists x y,
     StringRef.front ram hello_world = Ok x /\ StringRef.back ram hello_world = Ok y
     /\ nth_error (text "hello world") 0 = Some x
     /\ nth_error (text "hello world") 10 = Some y)
  /\ StringRef.front ram StringRef.default = AssertionFailed "!empty()"
  /\ StringRef.index ram hello_world 11 = AssertionFailed "Invalid index!".
Proof.
  assert (H11 : SizeT.in_range (StringRef.size hello_world)) by size_t_lit.
  assert (H0 : SizeT.in_range (StringRef.size StringRef.default)) by size_t_lit.
  assert (Hi : 0 <= 11) by (vm_compute; discriminate).
  pose proof (StringRef_front_back_index ram hello_world 11 H11 Hi) as (Hfb & _ & _ & Hout).
  pose proof (StringRef_front_back_index ram StringRef.default 11 H0 Hi) as (_ & He & _).
  split; [|split].
  - apply Hfb. vm_compute. discriminate.
  - apply He. reflexivity.
  - apply Hout. vm_compute. discriminate.
Defined.

(** ** StringRef: splitting again *)




(** ** StringRef: construction and conversion *)

Lemma strlen_terminated (m : Memory byte) (n fuel : nat) (p : ptr) :
  (forall j, 0 <= j < Z.of_nat n -> m (p + j) <> x00) ->
  m (p + Z.of_nat n) = x00 ->
  (n < fuel)%nat ->
  strlen fuel m p = Some (Z.of_nat n).
Proof.
  revert fuel p. induction n as [|n IH]; intros fuel p Hnz Hz Hfuel.
  - destruct fuel as [|fuel]; [lia|]. cbn [strlen].
    rewrite Z.add_0_r in Hz. rewrite Hz. reflexivity.
  - destruct fuel as [|fuel]; [lia|]. cbn [strlen].
    rewrite byte_eqb_neq.
    + rewrite (IH fuel (p + 1)).
      * cbn [option_map]. f_equal. lia.
      * intros j Hj. replace (p + 1 + j) with (p + (1 + j)) by lia. apply Hnz. lia.
      * replace (p + 1 + Z.of_nat n) with (p + Z.of_nat (S n)) by lia. exact Hz.
      * lia.
    + specialize (Hnz 0). rewrite Z.add_0_r in Hnz. apply Hnz. lia.
Qed.

(** X23: the constructor from a non-null C string whose first zero byte
    is at offset [n] returns, as soon as [strlen] may read more than [n]
    bytes, the view of the [n] bytes before the terminator: the terminator
    is not part of the view and no byte of the view is zero. *)
Theorem StringRef_of_cstr_measures (m : Memory byte) (Str : ptr) (n : Z) (fuel : nat) :
  Str <> nullptr ->
  0 <= n ->
  (forall j, 0 <= j < n -> m (Str + j) <> x00) ->
  m (Str + n) = x00 ->
  (Z.to_nat n < fuel)%nat ->
  StringRef.of_cstr fuel m Str = Some (StringRef.mk Str n)
  /\ StringRef.construct fuel m (StringRef.ArgCStr Str) = Some (Some (StringRef.mk Str n))
  /\ ~ In x00 (StringRef.bytes m (StringRef.mk Str n))
  /\ StringRef.str m (StringRef.mk Str n) = StringRef.bytes m (StringRef.mk Str n).
Proof.
  intros HStr Hn Hnz Hz Hfuel.
  assert (E : StringRef.of_cstr fuel m Str = Some (StringRef.mk Str n)).
  { unfold StringRef.of_cstr.
    destruct (Z.eqb_spec Str nullptr) as [Heq|_]; [contradiction|]. cbn [negb].
    rewrite (strlen_terminated m (Z.to_nat n) fuel Str).
    - cbn [option_map]. rewrite Z2Nat.id by exact Hn. reflexivity.
    - rewrite Z2Nat.id by exact Hn. exact Hnz.
    - rewrite Z2Nat.id by exact Hn. exact Hz.
    - exact Hfuel. }
  split; [exact E|]. split; [cbn [StringRef.construct]; rewrite E; reflexivity|]. split.
  - rewrite In_bytes by exact Hn. cbn [StringRef.Length]. unfold StringRef.char_at.
    cbn [StringRef.Data]. intros (j & Hj & Hc). exact (Hnz j Hj Hc).
  - unfold StringRef.str, StringRef.bytes. cbn [StringRef.Data StringRef.Length].
    destruct (Z.eqb_spec Str nullptr) as [Heq|_]; [contradiction|reflexivity].
Qed.

Lemma StringRef_of_cstr_measures_witness :
  StringRef.of_cstr 12 ram 4096 = Some hello_world
  /\ ~ In x00 (StringRef.bytes ram hello_world).
Proof.
  assert (Hnz : forall j, 0 <= j < 11 -> ram (4096 + j) <> x00).
  { intros j Hj.
    assert (Hc : j = 0 \/ j = 1 \/ j = 2 \/ j = 3 \/ j = 4 \/ j = 5 \/ j = 6 \/ j = 7
                 \/ j = 8 \/ j = 9 \/ j = 10) by lia.
    repeat (destruct Hc as [-> | Hc]; [vm_compute; discriminate|]).
    subst j. vm_compute. discriminate. }
  assert (Hp : 4096 <> nullptr) by (vm_compute; discriminate).
  assert (H0 : 0 <= 11) by (vm_compute; discriminate).
  assert (Hf : (Z.to_nat 11 < 12)%nat) by (vm_compute; repeat constructor).
  pose proof (StringRef_of_cstr_measures ram 4096 11 12 Hp H0 Hnz eq_refl Hf)
    as (E & _ & Hno & _).
  split; [exact E | exact Hno].
Defined.

(** X24: given the address of the literal [""], a non-null address holding
    a zero byte, [withNullAsEmpty] turns a null pointer into the empty view
    over that literal, is the C-string constructor on any other pointer, and
    never returns a view whose data is null; the C-string constructor
    itself keeps the null data.  [str()] of a view with null data is the
    empty string whatever its length. *)
Theorem StringRef_withNullAsEmpty_not_null (m : Memory byte) (lit : ptr) (fuel : nat) :
  lit <> nullptr ->
  m lit = x00 ->
  (0 < fuel)%nat ->
  StringRef.withNullAsEmpty fuel m lit nullptr = Some (StringRef.mk lit 0)
  /\ (forall data, data <> nullptr ->
        StringRef.withNullAsEmpty fuel m lit data = StringRef.of_cstr fuel m data)
  /\ (forall data r, StringRef.withNullAsEmpty fuel m lit data = Some r ->
        StringRef.Data r <> nullptr)
  /\ StringRef.Data (StringRef.mk nullptr 0) = nullptr
  /\ StringRef.of_cstr fuel m nullptr = Some (StringRef.mk nullptr 0)
  /\ (forall n, StringRef.str m (StringRef.mk nullptr n) = []).
Proof.
  intros Hlit Hz Hfuel.
  assert (El : StringRef.of_cstr fuel m lit = Some (StringRef.mk lit 0)).
  { unfold StringRef.of_cstr.
    destruct (Z.eqb_spec lit nullptr) as [E|_]; [contradiction|]. cbn [negb].
    destruct fuel as [|fuel]; [lia|]. cbn [strlen]. rewrite Hz. reflexivity. }
  split; [exact El|]. split; [|split; [|split; [|split]]]; try reflexivity.
  - intros data Hd. unfold StringRef.withNullAsEmpty.
    destruct (Z.eqb_spec data nullptr) as [E|_]; [contradiction|reflexivity].
  - intros data r. unfold StringRef.withNullAsEmpty.
    destruct (Z.eqb_spec data nullptr) as [E|Hd]; cbn [negb].
    + rewrite El. intros H. injection H as <-. exact Hlit.
    + unfold StringRef.of_cstr.
      destruct (Z.eqb_spec data nullptr) as [E|_]; [contradiction|]. cbn [negb].
      destruct (strlen fuel m data); cbn [option_map]; [|discriminate].
      intros H. injection H as <-. exact Hd.
Qed.

Lemma StringRef_withNullAsEmpty_not_null_witness :
  StringRef.withNullAsEmpty 1 ram 9000 nullptr = Some (StringRef.mk 9000 0)
  /\ StringRef.withNullAsEmpty 12 ram 9000 4096 = Some hello_world.
Proof.
  assert (Hl : 9000 <> nullptr) by (vm_compute; discriminate).
  assert (H1 : (0 < 1)%nat) by repeat constructor.
  assert (H12 : (0 < 12)%nat) by repeat constructor.
  pose proof (StringRef_withNullAsEmpty_not_null ram 9000 1 Hl eq_refl H1) as (E & _).
  pose proof (StringRef_withNullAsEmpty_not_null ram 9000 12 Hl eq_refl H12) as (_ & Hd & _).
  split; [exact E|]. rewrite Hd; [reflexivity|]. vm_compute. discriminate.
Defined.

(** X25: whatever the allocator, [copy] writes inside the block the
    allocator returned and nowhere else.  When that block does not overlap
    the bytes of the source, the copy compares equal to the source in the
    memory [copy] leaves: [operator==] holds and [compare] is 0.  This
    includes the empty view, whose copy is the default-constructed view. *)
Theorem StringRef_copy_equals_source {A : Type} `{Allocator A} (s : StringRef.t) (w : World A) :
  SizeT.in_range (StringRef.size s) ->
  let block := fst (Allocate (allocator w) (StringRef.size s)) in
  let r := fst (StringRef.copy s w) in
  let w' := snd (StringRef.copy s w) in
  (forall a, a < block \/ block + StringRef.size s <= a -> heap w' a = heap w a)
  /\ (block + StringRef.size s <= StringRef.Data s
      \/ StringRef.Data s + StringRef.size s <= block ->
      StringRef.op_eq (heap w') r s = true
      /\ StringRef.compare (heap w') r s = 0
      /\ StringRef.op_eq (heap w') s r = true).
Proof.
  intros Hlen block r w'. unfold r, w', block. clear r w' block.
  unfold StringRef.size in *. pose proof Hlen as Hlen'. unfold SizeT.in_range in Hlen'.
  assert (Hnn : 0 <= StringRef.Length s) by lia.
  destruct (Z.eq_dec (StringRef.Length s) 0) as [E0|Hne].
  - rewrite (copy_empty s w E0). cbn [fst snd]. split; [reflexivity|]. intros _.
    assert (Eq : StringRef.equals (heap w) StringRef.default s = true).
    { unfold StringRef.equals, StringRef.compareMemory. rewrite E0. reflexivity. }
    assert (Eq' : StringRef.equals (heap w) s StringRef.default = true).
    { unfold StringRef.equals, StringRef.compareMemory. rewrite E0. reflexivity. }
    unfold StringRef.op_eq. split; [exact Eq|]. split; [|exact Eq'].
    apply Z.eqb_eq. rewrite <- equals_compare_zero. exact Eq.
  - rewrite (copy_nonempty s w Hne). cbn [fst snd heap]. split.
    + intros a Ha. apply std_copy_n_outside. rewrite Z2Nat.id by lia. exact Ha.
    + intros Hfresh.
      set (block := fst (Allocate (allocator w) (StringRef.Length s))) in *.
      set (h' := std_copy_n (heap w) (StringRef.Data s) block (Z.to_nat (StringRef.Length s))).
      assert (Eb : StringRef.bytes h' (StringRef.mk block (StringRef.Length s)) =
                   StringRef.bytes h' s).
      { unfold StringRef.bytes. cbn [StringRef.Data StringRef.Length].
        apply cells_ext. intros i Hi. unfold h'.
        rewrite std_copy_n_inside;
          [| rewrite Z2Nat.id by lia; exact Hfresh | exact Hi].
        symmetry. apply std_copy_n_outside. rewrite Z2Nat.id in * by lia. lia. }
      assert (Eq : StringRef.equals h' (StringRef.mk block (StringRef.Length s)) s = true).
      { apply equals_iff_bytes; [exact Hnn | exact Hnn | exact Eb]. }
      unfold StringRef.op_eq. split; [exact Eq|]. split.
      * apply Z.eqb_eq. rewrite <- equals_compare_zero. exact Eq.
      * apply equals_iff_bytes; [exact Hnn | exact Hnn | symmetry; exact Eb].
Qed.

Lemma StringRef_copy_equals_source_witness :
  StringRef.op_eq (heap (snd (StringRef.copy hello_world world0)))
    (fst (StringRef.copy hello_world world0)) hello_world = true
  /\ heap (snd (StringRef.copy hello_world world0)) 4096 = heap world0 4096.
Proof.
  assert (H11 : SizeT.in_range (StringRef.size hello_world)) by size_t_lit.
  pose proof (StringRef_copy_equals_source hello_world world0 H11) as (Hout & Heq).
  split.
  - apply Heq. right. vm_compute. discriminate.
  - apply Hout. left. reflexivity.
Defined.

(** X26: dropping [a] and then [b] bytes from the front (or from the back)
    of a view is dropping [a + b] at once, when the view has at least
    [a + b] bytes; every call involved succeeds. *)
Theorem StringRef_drop_composes (s : StringRef.t) (a b : Z) :
  SizeT.in_range (StringRef.size s) ->
  0 <= a -> 0 <= b -> a + b <= StringRef.size s ->
  (exists s2, StringRef.drop_front s (a + b) = Ok s2
              /\ bind (StringRef.drop_front s a) (fun s1 => StringRef.drop_front s1 b) = Ok s2)
  /\ (exists s2, StringRef.drop_back s (a + b) = Ok s2
                 /\ bind (StringRef.drop_back s a) (fun s1 => StringRef.drop_back s1 b) = Ok s2).
Proof.
  unfold StringRef.size. intros Hlen Ha Hb Hab. pose proof Hlen as Hlen'.
  unfold SizeT.in_range in Hlen'.
  assert (H1 : SizeT.in_range
                 (StringRef.Length (StringRef.mk (StringRef.Data s + a) (StringRef.Length s - a)))).
  { unfold SizeT.in_range. cbn [StringRef.Length]. lia. }
  assert (H2 : SizeT.in_range
                 (StringRef.Length (StringRef.mk (StringRef.Data s) (StringRef.Length s - a)))).
  { unfold SizeT.in_range. cbn [StringRef.Length]. lia. }
  split; eexists.
  - split; [apply drop_front_ok; [exact Hlen | lia]|].
    rewrite (drop_front_ok s Hlen a) by lia. cbn [bind].
    rewrite drop_front_ok by (cbn [StringRef.Length]; assumption || lia).
    cbn [StringRef.Data StringRef.Length]. apply f_equal. f_equal; lia.
  - split; [apply drop_back_ok; [exact Hlen | lia]|].
    rewrite (drop_back_ok s Hlen a) by lia. cbn [bind].
    rewrite drop_back_ok by (cbn [StringRef.Length]; assumption || lia).
    cbn [StringRef.Data StringRef.Length]. apply f_equal. f_equal; lia.
Qed.

Lemma StringRef_drop_composes_witness :
  (exists s2, StringRef.drop_front hello_world (2 + 4) = Ok s2
              /\ bind (StringRef.drop_front hello_world 2)
                   (fun s1 => StringRef.drop_front s1 4) = Ok s2)
  /\ (exists s2, StringRef.drop_back hello_world (2 + 4) = Ok s2
                 /\ bind (StringRef.drop_back hello_world 2)
                      (fun s1 => StringRef.drop_back s1 4) = Ok s2).
Proof.
  assert (H11 : SizeT.in_range (StringRef.size hello_world)) by size_t_lit.
  apply (StringRef_drop_composes hello_world 2 4 H11); vm_compute; discriminate.
Defined.
